(** * GoFile Discord Embedder: link registry, prefetch cache and range proxy

    A shallow embedding of [src/index.js] and the properties of its three
    stateful components:

    - the short-link store ([linkStore], [pruneLinks], [storeLink]),
    - the video start cache ([videoCache], [cacheKey], [pruneCache],
      [prefetch]),
    - the streaming proxy route [GET /v/:filename] ([playback]).

    Modelling conventions.

    - A JavaScript [Map] is an association list in insertion order with
      pairwise distinct keys ([jsmap]); [Map.set] on a key that is present
      replaces the value in place, on a new key it appends.
    - JavaScript numbers that the code computes with are integers (byte
      indices, lengths, timestamps, status codes) and are represented by
      [Z].  The representation is exact below [2^53]; [parseInt] of a longer
      numeral returns the nearest double, which is again at least [2^53], so
      every comparison against a buffer length is decided as it is here.
      [NaN] is kept apart ([jsnum]).
    - Strings are sequences of 8-bit characters ([string]): HTTP header
      values reach the program as latin-1 text, and the patterns applied to
      URLs only inspect ASCII characters.
    - [Date.now()] and [crypto.randomBytes(4)] are inputs of the operations
      that read them.
    - An [async] function is a [task]: a tree whose nodes are the [await]ed
      origin calls; each synchronous segment between two suspension points
      is a function on the program state at the time it runs. *)

From Stdlib Require Import ZArith List String Ascii Bool Lia.
From Stdlib.Strings Require Import Byte.
From Stdlib Require Import Decimal DecimalString DecimalN DecimalZ.
Import ListNotations.
Local Open Scope string_scope.
Local Open Scope Z_scope.

Set Implicit Arguments.

(* ================================================================== *)
(** ** Configuration constants ([CONFIG] block of the source) *)

Definition GOFILE_WT   : string := "4fd6sg89d7s6".
Definition CACHE_CHUNK : Z := 2 * 1024 * 1024.
Definition MAX_CACHE   : Z := 50.
Definition CACHE_TTL   : Z := 30 * 60 * 1000.
Definition MAX_LINKS   : Z := 10000.
Definition LINK_TTL    : Z := 60 * 60 * 1000.

(* ================================================================== *)
(** ** JavaScript [Map] with string keys *)

Section JSMap.
Variable V : Type.

Definition jsmap := list (string * V).

Definition map_size (m : jsmap) : Z := Z.of_nat (List.length m).

Fixpoint map_get (k : string) (m : jsmap) : option V :=
  match m with
  | [] => None
  | (k', v) :: m' => if String.eqb k k' then Some v else map_get k m'
  end.

Definition map_has (k : string) (m : jsmap) : bool :=
  match map_get k m with Some _ => true | None => false end.

(** [Map.prototype.set]: an existing key keeps its position. *)
Fixpoint map_set (k : string) (v : V) (m : jsmap) : jsmap :=
  match m with
  | [] => [(k, v)]
  | (k', v') :: m' =>
      if String.eqb k k' then (k, v) :: m' else (k', v') :: map_set k v m'
  end.

Fixpoint map_delete (k : string) (m : jsmap) : jsmap :=
  match m with
  | [] => []
  | (k', v') :: m' =>
      if String.eqb k k' then m' else (k', v') :: map_delete k m'
  end.

(** [m.keys().next().value] *)
Definition first_key (m : jsmap) : option string :=
  match m with
  | [] => None
  | (k, _) :: _ => Some k
  end.

Definition map_keys (m : jsmap) : list string := List.map fst m.

(** The two loops shared by [pruneLinks] and [pruneCache].

    [for (const [k, v] of m) if (now - v.createdAt > ttl) m.delete(k)]:
    the iteration visits the entries that were present when it started,
    in insertion order, and deletes by key. *)
Variable createdAt : V -> Z.

Definition sweep_expired (ttl now : Z) (m : jsmap) : jsmap :=
  fold_left
    (fun acc kv => if ttl <? now - createdAt (snd kv)
                   then map_delete (fst kv) acc else acc)
    m m.

(** [while (m.size > max) m.delete(m.keys().next().value)].  The loop
    removes one entry per iteration, so [length m] iterations are
    enough; [fuel] counts them. *)
Fixpoint evict_oldest (fuel : nat) (max : Z) (m : jsmap) : jsmap :=
  match fuel with
  | O => m
  | S fuel' =>
      if max <? map_size m then
        match first_key m with
        | Some k => evict_oldest fuel' max (map_delete k m)
        | None => m
        end
      else m
  end.

Definition prune (ttl max now : Z) (m : jsmap) : jsmap :=
  let m1 := sweep_expired ttl now m in
  evict_oldest (List.length m1) max m1.
(** An entry that the expiry loop keeps at clock value [now]. *)
Definition alive (ttl now : Z) (kv : string * V) : bool :=
  negb (ttl <? now - createdAt (snd kv)).
End JSMap.

Arguments map_get {V} k m.
Arguments map_has {V} k m.
Arguments map_set {V} k v m.
Arguments map_delete {V} k m.
Arguments map_size {V} m.
Arguments first_key {V} m.
Arguments map_keys {V} m.

(* ================================================================== *)
(** ** Short link store *)

(** [Buffer.prototype.toString('base64url')]: groups of three bytes give
    four characters of the URL-safe alphabet; a final group of one or two
    bytes gives two or three characters, without padding. *)
Definition base64url_alphabet : string :=
  "ABCDEFGHIJKLMNOPQRSTUVWXYZabcdefghijklmnopqrstuvwxyz0123456789-_".

Definition b64char (n : Z) : ascii :=
  match String.get (Z.to_nat n) base64url_alphabet with
  | Some c => c
  | None => "A"%char
  end.

Definition byteZ (b : byte) : Z := Z.of_N (Byte.to_N b).

Fixpoint base64url (bs : list byte) : string :=
  match bs with
  | [] => ""
  | [a] =>
      let a := byteZ a in
      String (b64char (Z.shiftr a 2))
        (String (b64char (Z.shiftl (Z.land a 3) 4)) "")
  | [a; b] =>
      let a := byteZ a in
      let b := byteZ b in
      String (b64char (Z.shiftr a 2))
        (String (b64char (Z.lor (Z.shiftl (Z.land a 3) 4) (Z.shiftr b 4)))
           (String (b64char (Z.shiftl (Z.land b 15) 2)) ""))
  | a :: b :: c :: rest =>
      let a := byteZ a in
      let b := byteZ b in
      let c := byteZ c in
      String (b64char (Z.shiftr a 2))
        (String (b64char (Z.lor (Z.shiftl (Z.land a 3) 4) (Z.shiftr b 4)))
           (String (b64char (Z.lor (Z.shiftl (Z.land b 15) 2) (Z.shiftr c 6)))
              (String (b64char (Z.land c 63)) (base64url rest))))
  end.

(** The value of [crypto.randomBytes(4)]. *)
Record rand4 := Rand4 { r0 : byte; r1 : byte; r2 : byte; r3 : byte }.

Definition createShortId (r : rand4) : string :=
  base64url [r0 r; r1 r; r2 r; r3 r].

(** The metadata passed to [storeLink] and the stored entry
    [{ ...data, createdAt }]. *)
Record LinkData := mkLinkData {
  videoUrl : string;
  token    : string;
  thumb    : string;
  name     : string;
  w        : Z;
  h        : Z
}.

Record LinkEntry := mkLinkEntry {
  link_data      : LinkData;
  link_createdAt : Z
}.

Definition LinkStore := jsmap LinkEntry.

Definition pruneLinks (now : Z) (linkStore : LinkStore) : LinkStore :=
  prune link_createdAt LINK_TTL MAX_LINKS now linkStore.

(** [storeLink(data)]: [now_sweep] is the clock read inside [pruneLinks],
    [now_set] the one read for [createdAt], [r] the random bytes. *)
Definition storeLink (now_sweep now_set : Z) (r : rand4) (data : LinkData)
    (linkStore : LinkStore) : string * LinkStore :=
  let linkStore := pruneLinks now_sweep linkStore in
  let id := createShortId r in
  (id, map_set id (mkLinkEntry data now_set) linkStore).

(* ================================================================== *)
(** ** Strings, patterns and numbers of the JavaScript runtime *)

(** [strip_prefix p s] is [Some r] when [s = p ++ r]. *)
Fixpoint strip_prefix (p s : string) : option string :=
  match p with
  | EmptyString => Some s
  | String a p' =>
      match s with
      | EmptyString => None
      | String b s' => if Ascii.eqb a b then strip_prefix p' s' else None
      end
  end.

(** [s.endsWith(suffix)] *)
Definition endsWith (s suffix : string) : bool :=
  let n := String.length s in
  let k := String.length suffix in
  if Nat.leb k n then String.eqb (String.substring (n - k) k s) suffix
  else false.

(** The longest prefix of [s] whose characters satisfy [p], and the rest. *)
Fixpoint span (p : ascii -> bool) (s : string) : string * string :=
  match s with
  | EmptyString => (EmptyString, EmptyString)
  | String c s' =>
      if p c then let (a, b) := span p s' in (String c a, b)
      else (EmptyString, s)
  end.

(** A pattern without the sticky flag is tried at every position from the
    left; [at_pos] is the match attempt at one position. *)
Fixpoint search (A : Type) (at_pos : string -> option A) (s : string)
    : option A :=
  match at_pos s with
  | Some a => Some a
  | None =>
      match s with
      | EmptyString => None
      | String _ s' => search at_pos s'
      end
  end.

Definition in_range (lo hi c : ascii) : bool :=
  (N.leb (N_of_ascii lo) (N_of_ascii c) && N.leb (N_of_ascii c) (N_of_ascii hi))%bool.

Definition is_digit (c : ascii) : bool := in_range "0" "9" c.

Definition is_alnum (c : ascii) : bool :=
  (in_range "a" "z" c || in_range "A" "Z" c || in_range "0" "9" c)%bool.

(** The class [[a-f0-9-]]. *)
Definition is_hex_dash (c : ascii) : bool :=
  (in_range "a" "f" c || in_range "0" "9" c || Ascii.eqb c "-")%bool.

(** A literal followed by a greedy, non-empty run of a character class;
    the value is the captured run and what follows it. *)
Definition lit_then_run (lit : string) (cls : ascii -> bool) (s : string)
    : option (string * string) :=
  match strip_prefix lit s with
  | None => None
  | Some r =>
      match span cls r with
      | (EmptyString, _) => None
      | (run, rest) => Some (run, rest)
      end
  end.

(** [s.replace(/bytes=/, '')]: the first occurrence is removed. *)
Fixpoint remove_first (p s : string) : string :=
  match strip_prefix p s with
  | Some r => r
  | None =>
      match s with
      | EmptyString => EmptyString
      | String c s' => String c (remove_first p s')
      end
  end.

(** [s.split(sep)] for a one-character separator: never empty. *)
Fixpoint split (sep : ascii) (s : string) : list string :=
  match s with
  | EmptyString => [EmptyString]
  | String c s' =>
      if Ascii.eqb c sep then EmptyString :: split sep s'
      else match split sep s' with
           | hd :: tl => String c hd :: tl
           | [] => [String c EmptyString]
           end
  end.

(** Numbers: an integer or [NaN]. *)
Inductive jsnum := NaN | Num (z : Z).

(** Truthiness of a number: [NaN] and [0] are falsy. *)
Definition num_truthy (n : jsnum) : bool :=
  match n with
  | NaN => false
  | Num z => negb (z =? 0)
  end.

(** [a < b] on numbers; every comparison with [NaN] is false. *)
Definition num_lt (a b : jsnum) : bool :=
  match a, b with
  | Num x, Num y => x <? y
  | _, _ => false
  end.

(** A non-empty string is truthy. *)
Definition str_truthy (s : string) : bool :=
  match s with
  | EmptyString => false
  | _ => true
  end.

(** White space skipped by [parseInt], among the characters below 256:
    TAB, LF, VT, FF, CR, SP and NBSP. *)
Definition is_js_space (c : ascii) : bool :=
  let n := N_of_ascii c in
  (N.eqb n 9 || N.eqb n 10 || N.eqb n 11 || N.eqb n 12 || N.eqb n 13
   || N.eqb n 32 || N.eqb n 160)%bool.

Definition digit_val (c : ascii) : Z := Z.of_N (N_of_ascii c) - 48.

Fixpoint digits_value (acc : Z) (s : string) : Z :=
  match s with
  | EmptyString => acc
  | String c s' => digits_value (10 * acc + digit_val c) s'
  end.

(** [parseInt(s, 10)]: leading white space is dropped, then an optional
    sign, then the longest run of decimal digits is read; the result is
    [NaN] when that run is empty. *)
Definition parseInt (s : string) : jsnum :=
  let s := snd (span is_js_space s) in
  let (sign, s) :=
    match s with
    | String "-" r => (-1, r)
    | String "+" r => (1, r)
    | _ => (1, s)
    end in
  match fst (span is_digit s) with
  | EmptyString => NaN
  | ds => Num (sign * digits_value 0 ds)
  end.

(** Template-literal rendering of an integer. *)
Definition number_to_string (z : Z) : string :=
  DecimalString.NilEmpty.string_of_int (Z.to_int z).

Definition num_to_string (n : jsnum) : string :=
  match n with
  | NaN => "NaN"
  | Num z => number_to_string z
  end.

(* ================================================================== *)
(** ** Video start cache *)

Definition Buffer := list byte.

Definition buffer_length (b : Buffer) : Z := Z.of_nat (List.length b).

(** [ToIntegerOrInfinity] of an index argument: [NaN] counts as [0]. *)
Definition to_index (n : jsnum) : Z :=
  match n with
  | NaN => 0
  | Num z => z
  end.

Definition num_add (n : jsnum) (k : Z) : jsnum :=
  match n with
  | NaN => NaN
  | Num z => Num (z + k)
  end.

(** [buf.subarray(start, end)]: a negative index counts from the end, both
    indices are clamped to [[0, length]], and the view is empty when the
    end does not exceed the start. *)
Definition clamp_index (len i : Z) : Z :=
  if i <? 0 then Z.max (len + i) 0 else Z.min i len.

Definition subarray (b : Buffer) (start stop : jsnum) : Buffer :=
  let len := buffer_length b in
  let first := clamp_index len (to_index start) in
  let final := clamp_index len (to_index stop) in
  let count := Z.max (final - first) 0 in
  firstn (Z.to_nat count) (skipn (Z.to_nat first) b).

Record CacheEntry := mkCacheEntry {
  buffer          : Buffer;
  contentType     : string;
  totalSize       : option jsnum;      (* [null] or a number *)
  cache_createdAt : Z
}.

Definition VideoCache := jsmap CacheEntry.

(** [url.match(/\/download\/web\/([a-f0-9-]+)\//)]: at a position the
    literal must be followed by a non-empty run of the class and then by a
    slash.  The run is greedy, and a shorter run cannot help the match: the
    character after a shorter run belongs to the class, so it is not a
    slash. *)
Definition download_id_at (s : string) : option string :=
  match lit_then_run "/download/web/" is_hex_dash s with
  | Some (run, String "/" _) => Some run
  | _ => None
  end.

Definition cacheKey (url : string) : string :=
  match search download_id_at url with
  | Some id => id
  | None => url
  end.

Definition pruneCache (now : Z) (videoCache : VideoCache) : VideoCache :=
  prune cache_createdAt CACHE_TTL MAX_CACHE now videoCache.

(* ================================================================== *)
(** ** Program state, origin calls and asynchronous tasks *)

Record State := mkState {
  linkStore  : LinkStore;
  videoCache : VideoCache;
  console    : list string              (* lines written by [console.error] *)
}.

Definition log_error (line : string) (st : State) : State :=
  mkState (linkStore st) (videoCache st) (console st ++ [line]).

Definition set_videoCache (c : VideoCache) (st : State) : State :=
  mkState (linkStore st) c (console st).

Definition set_linkStore (l : LinkStore) (st : State) : State :=
  mkState l (videoCache st) (console st).

Inductive Method := GET | POST.

(** The request configuration handed to axios.  An option that the call
    site does not mention is [None]; axios then applies its default, which
    for [timeout] is [0], "no timeout". *)
Record AxiosConfig := mkConfig {
  cfg_method       : Method;
  cfg_url          : string;
  cfg_headers      : jsmap string;
  cfg_params       : jsmap string;
  cfg_responseType : option string;
  cfg_maxRedirects : option Z;
  cfg_timeout      : option Z;
  cfg_decompress   : option bool
}.

(** One file of a GoFile folder listing, as [/generate] reads it. *)
Record GoFileChild := mkChild {
  child_type      : string;
  child_mimetype  : option string;
  child_link      : string;
  child_thumbnail : string;
  child_name      : string
}.

(** What [/generate] reads from the JSON documents of the GoFile API:
    [data?.data?.token] of the accounts call, [data?.status] and
    [data?.data?.children] of the contents call.  A missing field is
    [None]. *)
Record ApiJson := mkApiJson {
  api_token    : option string;
  api_status   : option string;
  api_children : option (list GoFileChild)
}.

(** An origin response.  [resp_data] is the body as bytes (what
    [responseType] ['arraybuffer'] and ['stream'] deliver), [resp_json] the
    fields of the decoded body when the call asked for JSON. *)
Record AxiosResponse := mkResponse {
  resp_status  : Z;
  resp_headers : jsmap string;          (* names in lower case *)
  resp_data    : Buffer;
  resp_json    : ApiJson
}.

(** A rejected call: [err.message], [err.response?.status] and
    [err.response?.data?.status]. *)
Record AxiosError := mkError {
  err_message     : string;
  err_status      : option Z;
  err_data_status : option string
}.

Inductive AxiosResult :=
| Fulfilled (r : AxiosResponse)
| Rejected (e : AxiosError).

(** An asynchronous computation: finished with a value, rejected with an
    error, or suspended on an origin call.  The continuation runs on the
    state that the program has when the call settles. *)
#[warnings="-register-all"]
Inductive task (A : Type) : Type :=
| Done (a : A)
| Throw (e : AxiosError)
| Await (c : AxiosConfig) (k : AxiosResult -> State -> State * task A).

Arguments Done {A} a.
Arguments Throw {A} e.
Arguments Await {A} c k.

(** [issues t c]: the task can issue the origin call [c]. *)
Inductive issues (A : Type) : task A -> AxiosConfig -> Prop :=
| issues_here : forall c k, issues (Await c k) c
| issues_later : forall c k r st c',
    issues (snd (k r st)) c' -> issues (Await c k) c'.

(** [h[name] || dflt] on a header object. *)
Definition header_or (h : jsmap string) (name dflt : string) : string :=
  match map_get name h with
  | Some v => if str_truthy v then v else dflt
  | None => dflt
  end.

(** [range.match(/\/(\d+)/)], the captured digits. *)
Definition total_at (s : string) : option string :=
  option_map fst (lit_then_run "/" is_digit s).

Definition prefetch_config (url token : string) : AxiosConfig :=
  let headers :=
    [("Range", "bytes=0-" ++ number_to_string (CACHE_CHUNK - 1))%string] in
  let headers :=
    if str_truthy token
    then map_set "Cookie" ("accountToken=" ++ token)%string headers
    else headers in
  mkConfig GET url headers [] (Some "arraybuffer") (Some 5) (Some 15000) None.

(** The [try] block of [prefetch] after the call has returned [resp]. *)
Definition prefetch_store (now_sweep now_set : Z) (key : string)
    (resp : AxiosResponse) (st : State) : State :=
  let ct := header_or (resp_headers resp) "content-type" "video/mp4" in
  let range := header_or (resp_headers resp) "content-range" "" in
  let total := search total_at range in
  let cache := pruneCache now_sweep (videoCache st) in
  set_videoCache
    (map_set key
       (mkCacheEntry (resp_data resp) ct
          (match total with
           | Some digits => Some (parseInt digits)
           | None => None
           end)
          now_set)
       cache)
    st.

(** [async function prefetch(url, token)]. *)
Definition prefetch (now_sweep now_set : Z) (url token : string)
    (st : State) : State * task unit :=
  let key := cacheKey url in
  if map_has key (videoCache st) then (st, Done tt)
  else
    (st,
     Await (prefetch_config url token)
       (fun result st' =>
          match result with
          | Fulfilled resp =>
              (prefetch_store now_sweep now_set key resp st', Done tt)
          | Rejected err =>
              (log_error ("[cache] prefetch failed: " ++ err_message err) st',
               Done tt)
          end)).

(* ================================================================== *)
(** ** Helpers *)

(** [s.replace(/c/g, by)] for a one-character pattern: every occurrence is
    replaced, from left to right. *)
Fixpoint replace_char (c : ascii) (by_ : string) (s : string) : string :=
  match s with
  | EmptyString => EmptyString
  | String a s' =>
      if Ascii.eqb a c then (by_ ++ replace_char c by_ s')%string
      else String a (replace_char c by_ s')
  end.

(** The double quote character. *)
Definition dquote : ascii := "034"%char.

(** [function esc(str)]: the four replacements, ampersand first. *)
Definition esc (str : string) : string :=
  replace_char ">" "&gt;"
    (replace_char "<" "&lt;"
       (replace_char dquote "&quot;"
          (replace_char "&" "&amp;" str))).

(* ================================================================== *)
(** ** HTTP responses of the routes *)

Inductive Body :=
| NoBody
| Text (s : string)                     (* [res.send(string)] *)
| Json (fields : jsmap string)          (* [res.json(object)] *)
| Binary (b : Buffer)                   (* [res.end(buffer)] *)
| Piped (b : Buffer).                   (* [stream.pipe(res)] *)

Record Response := mkHttp {
  status  : Z;
  headers : jsmap string;
  body    : Body
}.

Definition setHeader (name value : string) (res : Response) : Response :=
  mkHttp (status res) (map_set name value (headers res)) (body res).

Definition set_status (code : Z) (res : Response) : Response :=
  mkHttp code (headers res) (body res).

Definition send (b : Body) (res : Response) : Response :=
  mkHttp (status res) (headers res) b.

Definition fresh_response : Response := mkHttp 200 [] NoBody.

(** The response object as the [/v] middleware hands it to the route. *)
Definition cors_response : Response :=
  setHeader "Access-Control-Expose-Headers"
    "Content-Range, Accept-Ranges, Content-Length, Content-Type"
    (setHeader "Access-Control-Allow-Headers" "Range"
       (setHeader "Access-Control-Allow-Methods" "GET, HEAD, OPTIONS"
          (setHeader "Access-Control-Allow-Origin" "*" fresh_response))).

(** [app.use('/v', (req, res, next) => ...)]: the four headers are set on
    every request under [/v]; an [OPTIONS] request is answered at once with
    204 and no body ([inl]), any other method goes on to the route with the
    response object prepared ([inr]). *)
Definition v_middleware (method : string) : Response + Response :=
  if String.eqb method "OPTIONS"
  then inl (send NoBody (set_status 204 cors_response))
  else inr cors_response.

(** The request of the streaming route: [req.query.id] (absent, or not a
    string, is [None]) and [req.headers.range]. *)
Record Request := mkRequest {
  query_id     : option string;
  header_range : option string
}.

(** [parseInt(...) || 0] *)
Definition or_zero (n : jsnum) : Z :=
  if num_truthy n then to_index n else 0.

(** The body of [if (rangeHeader) { ... }]: the pair [(rStart, rEnd)]. *)
Definition parse_range (rangeHeader : string) : Z * option jsnum :=
  let parts := split "-" (remove_first "bytes=" rangeHeader) in
  let rStart := or_zero (parseInt (nth 0 parts EmptyString)) in
  let rEnd :=
    match nth_error parts 1 with
    | Some p => if str_truthy p then Some (parseInt p) else None
    | None => None
    end in
  (rStart, rEnd).

(** [rEnd !== null ? rEnd : cached.buffer.length - 1] *)
Definition effective_end (rEnd : option jsnum) (cached : CacheEntry) : jsnum :=
  match rEnd with
  | Some e => e
  | None => Num (buffer_length (buffer cached) - 1)
  end.

(** [if (cached.totalSize)] *)
Definition total_truthy (t : option jsnum) : bool :=
  match t with
  | Some n => num_truthy n
  | None => false
  end.

(** The inner block of "try serving from cache": the response when the
    requested range lies in the cached buffer. *)
Definition serve_cached (rStart : Z) (rEnd : option jsnum)
    (cached : CacheEntry) (res : Response) : option Response :=
  let stop := effective_end rEnd cached in
  let len := buffer_length (buffer cached) in
  if ((rStart <? len) && num_lt stop (Num len))%bool then
    let slice := subarray (buffer cached) (Num rStart) (num_add stop 1) in
    let res := setHeader "Content-Type" (contentType cached) res in
    let res :=
      setHeader "Content-Length" (number_to_string (buffer_length slice)) res in
    let res := setHeader "Accept-Ranges" "bytes" res in
    let res := setHeader "Content-Disposition" "inline" res in
    let res :=
      if total_truthy (totalSize cached) then
        setHeader "Content-Range"
          ("bytes " ++ number_to_string rStart ++ "-" ++ num_to_string stop
             ++ "/"
             ++ match totalSize cached with
                | Some t => num_to_string t
                | None => "null"
                end)%string
          res
      else res in
    Some (send (Binary slice) (set_status 206 res))
  else None.

Definition stream_config (url token : string) (rangeHeader : option string)
    : AxiosConfig :=
  let headers : jsmap string := [] in
  let headers :=
    if str_truthy token
    then map_set "Cookie" ("accountToken=" ++ token)%string headers
    else headers in
  let headers :=
    match rangeHeader with
    | Some r => if str_truthy r then map_set "Range" r headers else headers
    | None => headers
    end in
  mkConfig GET url headers [] (Some "stream") (Some 5) None (Some false).

(** The headers copied from the origin's response when present. *)
Definition mirrored_headers : list string :=
  ["content-type"; "content-length"; "content-range"; "accept-ranges"].

Definition mirror (upstream : AxiosResponse) (res : Response) : Response :=
  fold_left
    (fun res h =>
       match map_get h (resp_headers upstream) with
       | Some v => if str_truthy v then setHeader h v res else res
       | None => res
       end)
    mirrored_headers res.

(** [err.response?.status || 502] *)
Definition error_status (err : AxiosError) : Z :=
  match err_status err with
  | Some s => if s =? 0 then 502 else s
  | None => 502
  end.

(** The [try]/[catch] of "stream from GoFile" once the call has settled.
    No header has been sent while the call is pending, so the [catch]
    block always answers. *)
Definition stream_settled (res : Response) (result : AxiosResult)
    (st : State) : State * task Response :=
  match result with
  | Fulfilled upstream =>
      let res := mirror upstream res in
      let res := setHeader "Content-Disposition" "inline" res in
      let res := set_status (resp_status upstream) res in
      (st, Done (send (Piped (resp_data upstream)) res))
  | Rejected err =>
      (log_error ("[proxy] " ++ err_message err) st,
       Done (send (Text "Proxy error") (set_status (error_status err) res)))
  end.

Section StreamingProxy.

(** [new URL(url).hostname]; [None] when the constructor throws. *)
Variable hostname : string -> option string.

Definition isGoFile (url : string) : bool :=
  match hostname url with
  | Some host => endsWith host ".gofile.io"
  | None => false
  end.

(** [app.get('/v/:filename', async (req, res) => ...)] *)
Definition playback (req : Request) (st : State) : State * task Response :=
  let res := cors_response in
  let entry :=
    match query_id req with
    | Some id => map_get id (linkStore st)
    | None => None
    end in
  match entry with
  | None =>
      (st, Done (send (Text "Link expired or not found.") (set_status 404 res)))
  | Some entry =>
      if negb (isGoFile (videoUrl (link_data entry))) then
        (st, Done (send (Text "Invalid source.") (set_status 403 res)))
      else
        let url := videoUrl (link_data entry) in
        let token := token (link_data entry) in
        let rangeHeader :=
          match header_range req with
          | Some r => if str_truthy r then Some r else None
          | None => None
          end in
        let '(rStart, rEnd) :=
          match rangeHeader with
          | Some r => parse_range r
          | None => (0, None)
          end in
        let key := cacheKey url in
        let cached := map_get key (videoCache st) in
        let from_cache :=
          match cached, rangeHeader with
          | Some c, Some _ => serve_cached rStart rEnd c res
          | _, _ => None
          end in
        match from_cache with
        | Some answer => (st, Done answer)
        | None =>
            (st, Await (stream_config url token (header_range req))
                   (stream_settled res))
        end
  end.

End StreamingProxy.

(* ================================================================== *)
(** ** Link creation and embed page: the callers of [storeLink] and
       [prefetch] *)

(** The clock and random values that one run of a handler reads:
    [Date.now()] in [pruneLinks] and in [storeLink], the random bytes of
    [createShortId], and [Date.now()] in [pruneCache] and in [prefetch]
    when the warm-up call has returned. *)
Record Env := mkEnv {
  links_now_sweep : Z;
  links_now_set   : Z;
  random_bytes    : rand4;
  cache_now_sweep : Z;
  cache_now_set   : Z
}.

(** What a handler leaves behind: the response it has sent and the warm-up
    it has started without awaiting it ([prefetch(...).catch(() => {})]). *)
Record Handled := mkHandled {
  response : Response;
  spawned  : option (task unit)
}.

Definition json_error (code : Z) (message : string) : Handled :=
  mkHandled
    (send (Json [("error", message)]) (set_status code fresh_response))
    None.

(** [axios.post('https://api.gofile.io/accounts')] *)
Definition accounts_config : AxiosConfig :=
  mkConfig POST "https://api.gofile.io/accounts" [] [] None None None None.

(** [axios.get(`https://api.gofile.io/contents/${contentId}`, { params,
    headers })] *)
Definition contents_config (contentId token : string) : AxiosConfig :=
  mkConfig GET ("https://api.gofile.io/contents/" ++ contentId)%string
    [("Authorization", "Bearer " ++ token)%string;
     ("X-Website-Token", GOFILE_WT)]
    [("page", "1"); ("pageSize", "1000"); ("sortField", "createTime");
     ("sortDirection", "-1")]
    None None None None.

(** [s.startsWith(p)] *)
Definition startsWith (s p : string) : bool :=
  match strip_prefix p s with
  | Some _ => true
  | None => false
  end.

(** [f.type === 'file' && f.mimetype?.startsWith('video')] *)
Definition is_video (f : GoFileChild) : bool :=
  (String.eqb (child_type f) "file"
   && match child_mimetype f with
      | Some m => startsWith m "video"
      | None => false
      end)%bool.

Definition or_default (s dflt : string) : string :=
  if str_truthy s then s else dflt.

(** The [catch] block of [/generate]. *)
Definition generate_failed (err : AxiosError) (st : State)
    : State * task Handled :=
  let detail :=
    match err_data_status err with
    | Some d => if str_truthy d then d else err_message err
    | None => err_message err
    end in
  (log_error ("[generate] " ++ err_message err) st,
   Done (json_error 500 ("Failed to process GoFile link. " ++ detail))).

Section LinkCreation.

Variable hostname : string -> option string.

(** [process.env.BASE_URL || `http://localhost:${PORT}`] *)
Variable BASE_URL : string.

(** The markup of the embed page for an identifier and its entry. *)
Variable embed_page : string -> LinkEntry -> string.

(** "store short link & prefetch" and the final [res.json]. *)
Definition generate_store (env : Env) (tok : string) (video : GoFileChild)
    (st : State) : State * task Handled :=
  let '(id, links) :=
    storeLink (links_now_sweep env) (links_now_set env) (random_bytes env)
      (mkLinkData (child_link video) tok
         (or_default (child_thumbnail video) "")
         (or_default (child_name video) "video.mp4")
         1920 1080)
      (linkStore st) in
  let st := set_linkStore links st in
  let '(st, warmup) :=
    prefetch (cache_now_sweep env) (cache_now_set env)
      (child_link video) tok st in
  (st,
   Done (mkHandled
           (send (Json [("embedUrl", BASE_URL ++ "/e/" ++ id)%string])
              fresh_response)
           (Some warmup))).

(** [app.post('/generate', async (req, res) => ...)]; [url] is
    [req.body.url]. *)
Definition generate (env : Env) (url : option string) (st : State)
    : State * task Handled :=
  let given := match url with Some u => u | None => EmptyString end in
  match search (lit_then_run "gofile.io/d/" is_alnum) given with
  | None =>
      (st,
       Done (json_error 400
               "Invalid GoFile URL. Expected: https://gofile.io/d/xxxxxx"))
  | Some (contentId, _) =>
      (st,
       Await accounts_config
         (fun acct st =>
            match acct with
            | Rejected err => generate_failed err st
            | Fulfilled acct =>
                match api_token (resp_json acct) with
                | None =>
                    (st, Done (json_error 502
                                 "Failed to get GoFile guest token."))
                | Some EmptyString =>
                    (st, Done (json_error 502
                                 "Failed to get GoFile guest token."))
                | Some tok =>
                    (st,
                     Await (contents_config contentId tok)
                       (fun content st =>
                          match content with
                          | Rejected err => generate_failed err st
                          | Fulfilled content =>
                              let json := resp_json content in
                              if negb (match api_status json with
                                       | Some s => String.eqb s "ok"
                                       | None => false
                                       end)
                              then
                                (st,
                                 Done (json_error 502
                                         ("GoFile API error: "
                                          ++ match api_status json with
                                             | Some s => or_default s "unknown"
                                             | None => "unknown"
                                             end)))
                              else
                                match api_children json with
                                | None =>
                                    (st,
                                     Done (json_error 502
                                             "Could not fetch content. Link may be invalid or expired."))
                                | Some children =>
                                    match find is_video children with
                                    | None =>
                                        (st,
                                         Done (json_error 404
                                                 "No video file found in this GoFile link."))
                                    | Some video =>
                                        generate_store env tok video st
                                    end
                                end
                          end))
                end
            end))
  end.

(** [app.get('/e/:id', (req, res) => ...)] *)
Definition embed (env : Env) (id : string) (st : State) : State * Handled :=
  match map_get id (linkStore st) with
  | None =>
      (st,
       mkHandled
         (send (Text "Link expired or not found.")
            (set_status 404 fresh_response))
         None)
  | Some entry =>
      let '(st, warmup) :=
        if isGoFile hostname (videoUrl (link_data entry)) then
          let '(st, t) :=
            prefetch (cache_now_sweep env) (cache_now_set env)
              (videoUrl (link_data entry)) (token (link_data entry)) st in
          (st, Some t)
        else (st, None) in
      (st, mkHandled (send (Text (embed_page id entry)) fresh_response) warmup)
  end.

End LinkCreation.

(* ================================================================== *)
(** * Vocabulary of the statements and example data *)

(** [storeLinks now data rs store]: one [storeLink] per element of [rs], all
    at clock value [now]. *)
Definition storeLinks (now : Z) (data : LinkData) (rs : list rand4)
    (store : LinkStore) : LinkStore :=
  fold_left (fun s r => snd (storeLink now now r data s)) rs store.

(** Distinctness of a list of identifiers, decided in one pass: a numeric
    code that increases strictly along the list. *)
Fixpoint increasing (l : list Z) : bool :=
  match l with
  | a :: (b :: _) as tl => ((a <? b) && increasing tl)%bool
  | _ => true
  end.

(** The position of a character in the base64url alphabet, and the number
    that an identifier spells in base 64. *)
Fixpoint index_in (c : ascii) (s : string) : Z :=
  match s with
  | EmptyString => 0
  | String c' s' => if Ascii.eqb c c' then 0 else 1 + index_in c s'
  end.

Fixpoint id_code (acc : Z) (s : string) : Z :=
  match s with
  | EmptyString => acc
  | String c s' => id_code (64 * acc + index_in c base64url_alphabet) s'
  end.

(** The byte with value [z mod 256]. *)
Definition byte_of_Z (z : Z) : byte :=
  match Byte.of_N (Z.to_N (z mod 256)) with
  | Some b => b
  | None => x00
  end.

(** The four bytes of a counter, most significant first. *)
Definition counter_bytes (i : Z) : rand4 :=
  Rand4 (byte_of_Z (Z.shiftr i 24)) (byte_of_Z (Z.shiftr i 16))
        (byte_of_Z (Z.shiftr i 8)) (byte_of_Z i).

(** The random values of [n] successive counters from [i] on. *)
Fixpoint count_up (n : nat) (i : Z) : list rand4 :=
  match n with
  | O => []
  | S n' => counter_bytes i :: count_up n' (i + 1)
  end.

Definition counters (n : Z) : list rand4 := count_up (Z.to_nat n) 0.

(** Example data: a link to a GoFile download URL, whose cache key is the
    identifier in its path. *)
Definition sample_link : LinkData :=
  mkLinkData "https://store1.gofile.io/download/web/0a1b2c3d-4e5f/clip.mp4"
    "guestToken" "" "clip.mp4" 1920 1080.

(** The state at start-up. *)
Definition empty_state : State := mkState [] [] [].

(** A warm-up whose origin call settles with [result] before anything else
    runs. *)
Definition prefetch_settled (now_sweep now_set : Z) (url token : string)
    (result : AxiosResult) (st : State) : State :=
  match prefetch now_sweep now_set url token st with
  | (st1, Await _ k) => fst (k result st1)
  | (st1, _) => st1
  end.

(** The download URL of resource number [i], and a four-byte answer of
    the origin to the warm-up's ranged read. *)
Definition sample_url (i : Z) : string :=
  ("https://store1.gofile.io/download/web/" ++ number_to_string i
     ++ "/clip.mp4")%string.

Definition sample_chunk : AxiosResponse :=
  mkResponse 206
    [("content-type", "video/mp4"); ("content-range", "bytes 0-3/4")]
    [x00; x00; x00; x18]
    (mkApiJson None None None).

(** [n] warm-ups in sequence, of the resources [i], [i + 1], ... *)
Fixpoint warm_from (n : nat) (i : Z) (st : State) : State :=
  match n with
  | O => st
  | S n' =>
      warm_from n' (i + 1)
        (prefetch_settled 0 0 (sample_url i) "" (Fulfilled sample_chunk) st)
  end.

Definition warm_all (n : Z) : State := warm_from (Z.to_nat n) 0 empty_state.

(** A link to another resource. *)
Definition other_link : LinkData :=
  mkLinkData "https://store2.gofile.io/download/web/99887766-5544/other.mp4"
    "guestToken2" "" "other.mp4" 1920 1080.

(** Every character of [s] satisfies [p]. *)
Fixpoint string_forall (p : ascii -> bool) (s : string) : bool :=
  match s with
  | EmptyString => true
  | String c s' => (p c && string_forall p s')%bool
  end.

(** [new URL(u).hostname] on the URLs of the examples below: [https://],
    then a host made of lower-case letters, digits, dots and hyphens, then
    a slash.  Any other text is left unparsed. *)
Definition is_host_char (c : ascii) : bool :=
  (in_range "a" "z" c || in_range "0" "9" c || Ascii.eqb c "." || Ascii.eqb c "-")%bool.

Definition https_hostname (u : string) : option string :=
  match lit_then_run "https://" is_host_char u with
  | Some (host, String "/" _) => Some host
  | _ => None
  end.

(** The header value [bytes start-stop/total]. *)
Definition content_range_text (start stop total : Z) : string :=
  ("bytes " ++ number_to_string start ++ "-" ++ number_to_string stop
     ++ "/" ++ number_to_string total)%string.

(** The live path of the route: the suspended call to the origin. *)
Definition live_stream (entry : LinkEntry) (req : Request) (st : State)
    : State * task Response :=
  (st,
   Await (stream_config (videoUrl (link_data entry)) (token (link_data entry))
            (header_range req))
     (stream_settled cors_response)).

(** A registry with one link, under the identifier that [createShortId]
    gives for the random bytes [3a 07 c4 51]; the same state after the
    warm-up of its resource has stored [sample_chunk]. *)
Definition sample_id : string := "OgfEUQ".

Definition linked_state : State :=
  mkState [(sample_id, mkLinkEntry sample_link 0)] [] [].

Definition warmed_state : State :=
  prefetch_settled 0 0 (videoUrl sample_link) (token sample_link)
    (Fulfilled sample_chunk) linked_state.

Definition sample_entry : CacheEntry :=
  mkCacheEntry [x00; x00; x00; x18] "video/mp4" (Some (Num 4)) 0.

(** An answer of the origin that reports the total size [0]. *)
Definition zero_total_chunk : AxiosResponse :=
  mkResponse 206
    [("content-type", "video/mp4"); ("content-range", "bytes 0-0/0")]
    [x00]
    (mkApiJson None None None).

(** A link whose URL is not on a [gofile.io] host. *)
Definition foreign_link : LinkData :=
  mkLinkData "https://cdn.example.net/download/web/0a1b2c3d-4e5f/clip.mp4"
    "guestToken" "" "clip.mp4" 1920 1080.

Definition foreign_state : State :=
  mkState [(sample_id, mkLinkEntry foreign_link 0)] [] [].

(** A task that cannot end in a rejected promise, whatever the origin
    answers and whatever state it resumes in. *)
Inductive never_throws (A : Type) : task A -> Prop :=
| never_throws_done : forall a, never_throws (Done a)
| never_throws_await : forall c k,
    (forall r st, never_throws (snd (k r st))) -> never_throws (Await c k).

(** A second link to the origin URL of [sample_link]. *)
Definition second_id : string := "q83vEg".

Definition second_link : LinkData :=
  mkLinkData (videoUrl sample_link) "guestToken2" "" "clip.mp4" 1920 1080.

Definition two_links_state : State :=
  mkState
    [(sample_id, mkLinkEntry sample_link 0);
     (second_id, mkLinkEntry second_link 5)]
    [] [].

(** Clock and random values for one run of a handler. *)
Definition sample_env : Env :=
  mkEnv 0 0 (Rand4 x3a x07 xc4 x51) 0 0.

(** The inverse reading of [esc]: the four entities it writes are turned
    back into their characters, any other character is kept. *)
Fixpoint unesc (s : string) : string :=
  match s with
  | String "&" (String "a" (String "m" (String "p" (String ";" r)))) =>
      String "&" (unesc r)
  | String "&" (String "q" (String "u" (String "o" (String "t" (String ";" r))))) =>
      String dquote (unesc r)
  | String "&" (String "l" (String "t" (String ";" r))) => String "<" (unesc r)
  | String "&" (String "g" (String "t" (String ";" r))) => String ">" (unesc r)
  | String c r => String c (unesc r)
  | EmptyString => EmptyString
  end.

(** What [esc] writes for one character. *)
Definition esc_char (a : ascii) : string :=
  if Ascii.eqb a "&" then "&amp;"
  else if Ascii.eqb a dquote then "&quot;"
  else if Ascii.eqb a "<" then "&lt;"
  else if Ascii.eqb a ">" then "&gt;"
  else String a EmptyString.

(** Characters that need no encoding in a URL path:
    [A-Z], [a-z], [0-9], [-] and [_]. *)
Definition is_url_safe (c : ascii) : bool :=
  (in_range "A" "Z" c || in_range "a" "z" c || in_range "0" "9" c
   || Ascii.eqb c "-" || Ascii.eqb c "_")%bool.

(** [runs t st st']: a segment of the task [t] runs in state [st] and
    leaves state [st'].  The segments of a task are the continuations of
    its origin calls; each may resume in any state. *)
Inductive runs (A : Type) : task A -> State -> State -> Prop :=
| runs_resume : forall c k r st, runs (Await c k) st (fst (k r st))
| runs_later : forall c k r st0 st st',
    runs (snd (k r st0)) st st' -> runs (Await c k) st st'.

(** The states of the server: the state at start-up, and every state left
    by a segment of a handler or of a warm-up, started or resumed in a
    state of the server, for any request, any answer of the origin and any
    reading of clock and random source. *)
Inductive reachable (hostname : string -> option string) (BASE_URL : string)
    : State -> Prop :=
| reach_start : reachable hostname BASE_URL empty_state
| reach_generate : forall env url st,
    reachable hostname BASE_URL st ->
    reachable hostname BASE_URL (fst (generate BASE_URL env url st))
| reach_generate_resumed : forall env url st0 st st',
    reachable hostname BASE_URL st ->
    runs (snd (generate BASE_URL env url st0)) st st' ->
    reachable hostname BASE_URL st'
| reach_embed : forall embed_page env id st,
    reachable hostname BASE_URL st ->
    reachable hostname BASE_URL (fst (embed hostname embed_page env id st))
| reach_playback : forall req st,
    reachable hostname BASE_URL st ->
    reachable hostname BASE_URL (fst (playback hostname req st))
| reach_playback_resumed : forall req st0 st st',
    reachable hostname BASE_URL st ->
    runs (snd (playback hostname req st0)) st st' ->
    reachable hostname BASE_URL st'
| reach_prefetch : forall now_sweep now_set url tok st,
    reachable hostname BASE_URL st ->
    reachable hostname BASE_URL (fst (prefetch now_sweep now_set url tok st))
| reach_prefetch_resumed : forall now_sweep now_set url tok st0 st st',
    reachable hostname BASE_URL st ->
    runs (snd (prefetch now_sweep now_set url tok st0)) st st' ->
    reachable hostname BASE_URL st'.

(** The size and shape invariant of the two maps. *)
Definition maps_bounded (st : State) : Prop :=
  NoDup (map_keys (linkStore st))
  /\ NoDup (map_keys (videoCache st))
  /\ map_size (linkStore st) <= MAX_LINKS + 1
  /\ map_size (videoCache st) <= MAX_CACHE + 1.

(** A registry with three links, created at clock values [0], [1] and
    [3600000]: at clock value [3600001] the first is older than [LINK_TTL]
    and the second is exactly as old. *)
Definition aged_store : LinkStore :=
  [("AAAAAA", mkLinkEntry sample_link 0);
   ("AAAAAQ", mkLinkEntry sample_link 1);
   ("AAAAAg", mkLinkEntry other_link 3600000)].

(** The characters that could end an attribute value or open a tag. *)
Definition is_markup (c : ascii) : bool :=
  (Ascii.eqb c dquote || Ascii.eqb c "<" || Ascii.eqb c ">")%bool.

(** [ends_with t res]: the task can finish with the value [res]. *)
Inductive ends_with (A : Type) : task A -> A -> Prop :=
| ends_done : forall a, ends_with (Done a) a
| ends_resumed : forall c k r st a,
    ends_with (snd (k r st)) a -> ends_with (Await c k) a.

(** The four cross-origin headers of the [/v] middleware are present with
    the values it gives them. *)
Definition cors_present (h : jsmap string) : Prop :=
  map_get "Access-Control-Allow-Origin" h = Some "*"
  /\ map_get "Access-Control-Allow-Methods" h = Some "GET, HEAD, OPTIONS"
  /\ map_get "Access-Control-Allow-Headers" h = Some "Range"
  /\ map_get "Access-Control-Expose-Headers" h
     = Some "Content-Range, Accept-Ranges, Content-Length, Content-Type".

(** Answers of the GoFile API for one share: a guest token, and a listing
    with a text file and a video. *)
Definition sample_accounts : AxiosResponse :=
  mkResponse 200 [] [] (mkApiJson (Some "guestToken") None None).

Definition sample_video : GoFileChild :=
  mkChild "file" (Some "video/mp4")
    "https://store1.gofile.io/download/web/0a1b2c3d-4e5f/clip.mp4" "" "".

Definition sample_contents : AxiosResponse :=
  mkResponse 200 [] []
    (mkApiJson None (Some "ok")
       (Some [mkChild "file" (Some "text/plain")
                "https://store1.gofile.io/download/web/77-aa/notes.txt" ""
                "notes.txt";
              sample_video])).

(* ================================================================== *)
(** * Properties *)

(** ** The [Map] model *)

Section JSMapFacts.
Variable V : Type.
Implicit Types (m : jsmap V) (k : string) (v : V).

Lemma map_get_set_same k v m : map_get k (map_set k v m) = Some v.
Proof.
  induction m as [|[k' v'] m IH]; simpl.
  - now rewrite String.eqb_refl.
  - destruct (String.eqb k k') eqn:E; simpl.
    + now rewrite String.eqb_refl.
    + now rewrite E.
Qed.

Lemma map_get_set_other k k' v m :
  k <> k' -> map_get k' (map_set k v m) = map_get k' m.
Proof.
  intros Hne. induction m as [|[k0 v0] m IH]; simpl.
  - destruct (String.eqb k' k) eqn:E; [|reflexivity].
    apply String.eqb_eq in E. congruence.
  - destruct (String.eqb k k0) eqn:E; simpl.
    + apply String.eqb_eq in E. subst k0.
      destruct (String.eqb k' k) eqn:E'; [|reflexivity].
      apply String.eqb_eq in E'. congruence.
    + now rewrite IH.
Qed.

Lemma map_get_none_notin k m :
  map_get k m = None <-> ~ In k (map_keys m).
Proof.
  induction m as [|[k' v'] m IH]; simpl.
  - tauto.
  - destruct (String.eqb k k') eqn:E.
    + apply String.eqb_eq in E. subst. split; [discriminate | tauto].
    + apply String.eqb_neq in E. rewrite IH. split.
      * intros H [H1 | H1]; [congruence | tauto].
      * tauto.
Qed.

Lemma map_get_in k v m : map_get k m = Some v -> In (k, v) m.
Proof.
  induction m as [|[k' v'] m IH]; simpl; [discriminate|].
  destruct (String.eqb k k') eqn:E.
  - apply String.eqb_eq in E. intros [= ->]. subst. now left.
  - intros H. right. now apply IH.
Qed.

Lemma map_set_fresh k v m :
  map_get k m = None -> map_set k v m = (m ++ [(k, v)])%list.
Proof.
  induction m as [|[k' v'] m IH]; simpl; [reflexivity|].
  destruct (String.eqb k k'); [discriminate|].
  intros H. now rewrite IH.
Qed.

Lemma map_set_keys_present k v v0 m :
  map_get k m = Some v0 -> map_keys (map_set k v m) = map_keys m.
Proof.
  induction m as [|[k' v'] m IH]; simpl; [discriminate|].
  destruct (String.eqb k k') eqn:E; simpl.
  - apply String.eqb_eq in E. now subst.
  - intros H. now rewrite IH.
Qed.

Lemma map_set_size_le k v m : map_size (map_set k v m) <= map_size m + 1.
Proof.
  unfold map_size. induction m as [|[k' v'] m IH]; simpl List.length.
  - lia.
  - destruct (String.eqb k k'); simpl List.length; lia.
Qed.

Lemma map_set_keys_NoDup k v m :
  NoDup (map_keys m) -> NoDup (map_keys (map_set k v m)).
Proof.
  intros Hnd. destruct (map_get k m) as [v0|] eqn:E.
  - now rewrite map_set_keys_present with (v0 := v0).
  - rewrite map_set_fresh by assumption. unfold map_keys. rewrite map_app. simpl.
    apply NoDup_app; [assumption | repeat constructor; simpl; tauto |].
    intros x Hx [<- | []]. now apply map_get_none_notin in E.
Qed.

Lemma map_delete_head k v m : map_delete k ((k, v) :: m) = m.
Proof. simpl. now rewrite String.eqb_refl. Qed.

Lemma map_delete_app_notin k (a b : jsmap V) :
  ~ In k (map_keys a) ->
  map_delete k (a ++ b)%list = (a ++ map_delete k b)%list.
Proof.
  unfold map_keys.
  induction a as [|[k' v'] a IH]; simpl; [reflexivity|].
  intros H. destruct (String.eqb k k') eqn:E.
  - apply String.eqb_eq in E. subst. tauto.
  - rewrite IH; tauto.
Qed.

(** *** The expiry loop *)

Variable createdAt : V -> Z.

Lemma sweep_expired_filter_gen ttl now (pre l : jsmap V) :
  NoDup (map_keys (pre ++ l)%list) ->
  fold_left
    (fun acc kv => if ttl <? now - createdAt (snd kv)
                   then map_delete (fst kv) acc else acc)
    l (pre ++ l)%list
  = (pre ++ filter (alive createdAt ttl now) l)%list.
Proof.
  revert pre. induction l as [|[k v] l IH]; intros pre Hnd; simpl.
  - reflexivity.
  - unfold alive at 1. simpl.
    destruct (ttl <? now - createdAt v) eqn:E; simpl.
    + assert (Hk : ~ In k (map_keys pre)).
      { unfold map_keys in *. rewrite map_app in Hnd. simpl in Hnd.
        apply NoDup_remove_2 in Hnd. rewrite in_app_iff in Hnd. tauto. }
      rewrite map_delete_app_notin by assumption. rewrite map_delete_head.
      apply IH. unfold map_keys in *. rewrite map_app in *. simpl in Hnd.
      now apply NoDup_remove_1 in Hnd.
    + change (pre ++ (k, v) :: l)%list with (pre ++ [(k, v)] ++ l)%list.
      rewrite app_assoc, IH.
      * now rewrite <- app_assoc.
      * now rewrite <- app_assoc.
Qed.

(** On a map (distinct keys) the expiry loop keeps exactly the entries
    that have not expired, in their order. *)
Lemma sweep_expired_filter ttl now m :
  NoDup (map_keys m) ->
  sweep_expired createdAt ttl now m = filter (alive createdAt ttl now) m.
Proof.
  intros Hnd. exact (sweep_expired_filter_gen ttl now [] m Hnd).
Qed.

Lemma sweep_expired_none_gen ttl now (l acc : jsmap V) :
  (forall kv, In kv l -> now - createdAt (snd kv) <= ttl) ->
  fold_left
    (fun acc kv => if ttl <? now - createdAt (snd kv)
                   then map_delete (fst kv) acc else acc)
    l acc = acc.
Proof.
  revert acc. induction l as [|kv l IH]; intros acc H; simpl.
  - reflexivity.
  - assert (E : (ttl <? now - createdAt (snd kv)) = false).
    { apply Z.ltb_ge. apply H. now left. }
    rewrite E. apply IH. intros kv' Hin. apply H. now right.
Qed.

Lemma sweep_expired_none ttl now m :
  (forall kv, In kv m -> now - createdAt (snd kv) <= ttl) ->
  sweep_expired createdAt ttl now m = m.
Proof. apply sweep_expired_none_gen. Qed.

(** *** The capacity loop *)

(** With at least [length m] iterations available the loop runs to its
    exit and drops the oldest entries, as many as exceed [max]. *)
Lemma evict_oldest_skipn fuel max m :
  0 <= max -> (List.length m <= fuel)%nat ->
  evict_oldest fuel max m = skipn (Z.to_nat (map_size m - max)) m.
Proof.
  intros Hmax. revert m. induction fuel as [|fuel IH]; intros m Hlen.
  - destruct m; [|simpl in Hlen; lia]. simpl. now rewrite skipn_nil.
  - cbn [evict_oldest]. destruct (max <? map_size m) eqn:E.
    + apply Z.ltb_lt in E. destruct m as [|[k v] m].
      * unfold map_size in E. simpl in E. lia.
      * cbn [first_key]. rewrite map_delete_head.
        rewrite IH by (simpl in Hlen; lia).
        unfold map_size in *. simpl List.length in *.
        replace (Z.to_nat (Z.of_nat (S (List.length m)) - max))
          with (S (Z.to_nat (Z.of_nat (List.length m) - max))) by lia.
        reflexivity.
    + apply Z.ltb_ge in E.
      replace (Z.to_nat (map_size m - max)) with 0%nat by lia.
      reflexivity.
Qed.

Lemma evict_oldest_within fuel max m :
  map_size m <= max -> evict_oldest fuel max m = m.
Proof.
  intros H. destruct fuel; simpl; [reflexivity|].
  apply Z.ltb_ge in H. now rewrite H.
Qed.

(** *** [prune] *)

Lemma prune_spec ttl max now m :
  0 <= max -> NoDup (map_keys m) ->
  prune createdAt ttl max now m
  = let kept := filter (alive createdAt ttl now) m in
    skipn (Z.to_nat (map_size kept - max)) kept.
Proof.
  intros Hmax Hnd. unfold prune.
  rewrite sweep_expired_filter by assumption.
  now apply evict_oldest_skipn.
Qed.

Lemma prune_noop ttl max now m :
  (forall kv, In kv m -> now - createdAt (snd kv) <= ttl) ->
  map_size m <= max ->
  prune createdAt ttl max now m = m.
Proof.
  intros Halive Hsize. unfold prune.
  rewrite sweep_expired_none by assumption.
  now apply evict_oldest_within.
Qed.

Lemma NoDup_keys_filter (p : string * V -> bool) m :
  NoDup (map_keys m) -> NoDup (map_keys (filter p m)).
Proof.
  unfold map_keys. induction m as [|[k v] m IH]; simpl; intros Hnd.
  - constructor.
  - inversion Hnd as [|? ? Hk Hnd']; subst.
    destruct (p (k, v)); simpl; [|now apply IH].
    constructor; [|now apply IH].
    intros Hin. apply Hk. apply in_map_iff in Hin.
    destruct Hin as [kv [<- Hin]]. apply filter_In in Hin.
    apply in_map. tauto.
Qed.

Lemma In_skipn (A : Type) n (l : list A) x : In x (skipn n l) -> In x l.
Proof.
  intros H. rewrite <- (firstn_skipn n l). apply in_or_app. now right.
Qed.

Lemma NoDup_keys_skipn n m :
  NoDup (map_keys m) -> NoDup (map_keys (skipn n m)).
Proof.
  revert m. induction n as [|n IH]; intros m Hnd; simpl; [assumption|].
  destruct m as [|kv m]; [constructor|].
  apply IH. now inversion Hnd.
Qed.

Lemma prune_keys_NoDup ttl max now m :
  0 <= max -> NoDup (map_keys m) ->
  NoDup (map_keys (prune createdAt ttl max now m)).
Proof.
  intros Hmax Hnd. rewrite prune_spec by assumption. cbv zeta.
  now apply NoDup_keys_skipn, NoDup_keys_filter.
Qed.

(** After [prune] the map holds at most [max] entries. *)
Lemma prune_size ttl max now m :
  0 <= max -> NoDup (map_keys m) ->
  map_size (prune createdAt ttl max now m) <= max.
Proof.
  intros Hmax Hnd. rewrite prune_spec by assumption. cbv zeta.
  unfold map_size. rewrite length_skipn. lia.
Qed.

(** Every entry that [prune] keeps was in the map and has not expired. *)
Lemma prune_In ttl max now m kv :
  0 <= max -> NoDup (map_keys m) ->
  In kv (prune createdAt ttl max now m) ->
  In kv m /\ now - createdAt (snd kv) <= ttl.
Proof.
  intros Hmax Hnd. rewrite prune_spec by assumption. cbv zeta.
  intros Hin. apply In_skipn in Hin. apply filter_In in Hin.
  destruct Hin as [Hin Ha]. split; [assumption|].
  unfold alive in Ha. apply negb_true_iff, Z.ltb_ge in Ha. exact Ha.
Qed.

End JSMapFacts.

(* ================================================================== *)
(** ** Link registry: sweep, capacity and identifiers *)

Lemma MAX_LINKS_nonneg : 0 <= MAX_LINKS.
Proof. unfold MAX_LINKS. lia. Qed.

Lemma MAX_CACHE_nonneg : 0 <= MAX_CACHE.
Proof. unfold MAX_CACHE. lia. Qed.

(** [pruneLinks] keeps the entries that have not expired and, of those, the
    most recently inserted [MAX_LINKS]: capacity eviction removes from the
    front of the insertion order. *)
Lemma pruneLinks_spec now (store : LinkStore) :
  NoDup (map_keys store) ->
  pruneLinks now store
  = let kept := filter (alive link_createdAt LINK_TTL now) store in
    skipn (Z.to_nat (map_size kept - MAX_LINKS)) kept.
Proof. intros H. apply prune_spec; [apply MAX_LINKS_nonneg | exact H]. Qed.

Lemma pruneCache_spec now (cache : VideoCache) :
  NoDup (map_keys cache) ->
  pruneCache now cache
  = let kept := filter (alive cache_createdAt CACHE_TTL now) cache in
    skipn (Z.to_nat (map_size kept - MAX_CACHE)) kept.
Proof. intros H. apply prune_spec; [apply MAX_CACHE_nonneg | exact H]. Qed.

(** The sweep runs before the insertion, so the registry can hold one entry
    more than [MAX_LINKS] when [storeLink] returns. *)
Lemma storeLink_size_bound now_sweep now_set r data (store : LinkStore) :
  NoDup (map_keys store) ->
  map_size (snd (storeLink now_sweep now_set r data store)) <= MAX_LINKS + 1.
Proof.
  intros Hnd. unfold storeLink. cbn [snd].
  pose proof (@prune_size _ link_createdAt LINK_TTL MAX_LINKS now_sweep
                store MAX_LINKS_nonneg Hnd) as Hp.
  fold (pruneLinks now_sweep store) in Hp.
  pose proof (map_set_size_le (createShortId r) (mkLinkEntry data now_set)
                (pruneLinks now_sweep store)).
  lia.
Qed.

Lemma storeLink_keys_NoDup now_sweep now_set r data (store : LinkStore) :
  NoDup (map_keys store) ->
  NoDup (map_keys (snd (storeLink now_sweep now_set r data store))).
Proof.
  intros Hnd. unfold storeLink. cbn [snd].
  apply map_set_keys_NoDup. unfold pruneLinks.
  apply prune_keys_NoDup; [apply MAX_LINKS_nonneg | exact Hnd].
Qed.

(** An insertion under an identifier that the swept registry does not hold,
    into a registry within its capacity whose entries are all alive. *)
Lemma storeLink_fresh now_sweep now_set r data (store : LinkStore) :
  (forall kv, In kv store -> now_sweep - link_createdAt (snd kv) <= LINK_TTL) ->
  map_size store <= MAX_LINKS ->
  map_get (createShortId r) store = None ->
  snd (storeLink now_sweep now_set r data store)
  = (store ++ [(createShortId r, mkLinkEntry data now_set)])%list.
Proof.
  intros Halive Hsize Hfresh. unfold storeLink, pruneLinks. cbn [snd].
  rewrite prune_noop by assumption.
  now apply map_set_fresh.
Qed.

Lemma storeLinks_fresh now data rs : forall store : LinkStore,
  (forall kv, In kv store -> link_createdAt (snd kv) = now) ->
  NoDup (map_keys store ++ List.map createShortId rs) ->
  map_size store + Z.of_nat (List.length rs) <= MAX_LINKS + 1 ->
  storeLinks now data rs store
  = (store ++ List.map (fun r => (createShortId r, mkLinkEntry data now)) rs)%list.
Proof.
  unfold storeLinks.
  induction rs as [|r rs IH]; intros store Hnow Hnd Hsize.
  - simpl. now rewrite app_nil_r.
  - cbn [fold_left].
    simpl List.length in Hsize. simpl List.map in Hnd.
    rewrite storeLink_fresh.
    + rewrite IH.
      * rewrite <- app_assoc. reflexivity.
      * intros kv Hin. apply in_app_or in Hin. destruct Hin as [Hin | [<- | []]].
        -- now apply Hnow.
        -- reflexivity.
      * unfold map_keys in *. rewrite map_app. simpl.
        rewrite <- app_assoc. exact Hnd.
      * unfold map_size in *. rewrite length_app. simpl List.length. lia.
    + intros kv Hin. rewrite (Hnow kv Hin). unfold LINK_TTL. lia.
    + lia.
    + apply map_get_none_notin. apply NoDup_remove_2 in Hnd.
      intros Hin. apply Hnd. apply in_or_app. now left.
Qed.

Lemma increasing_lt a l x : increasing (a :: l) = true -> In x l -> a < x.
Proof.
  revert a. induction l as [|b l IH]; intros a H Hin; [destruct Hin|].
  cbn [increasing] in H. apply andb_true_iff in H. destruct H as [Hab Hl].
  apply Z.ltb_lt in Hab. destruct Hin as [<- | Hin]; [assumption|].
  specialize (IH b Hl Hin). lia.
Qed.

Lemma increasing_NoDup l : increasing l = true -> NoDup l.
Proof.
  induction l as [|a l IH]; intros H; constructor.
  - intros Hin. pose proof (increasing_lt a l a H Hin). lia.
  - apply IH. destruct l as [|b l]; [reflexivity|].
    cbn [increasing] in H. apply andb_true_iff in H. tauto.
Qed.

Lemma coded_NoDup (A : Type) (code : A -> Z) (l : list A) :
  increasing (List.map code l) = true -> NoDup l.
Proof. intros H. apply (NoDup_map_inv code). now apply increasing_NoDup. Qed.

Lemma counters_ids_NoDup n :
  increasing (List.map (fun r => id_code 0 (createShortId r)) (counters n)) = true ->
  NoDup (List.map createShortId (counters n)).
Proof.
  intros H. apply (coded_NoDup (id_code 0)). now rewrite map_map.
Qed.

Lemma map_has_listed (V : Type) (key : rand4 -> string) (val : rand4 -> V) rs r :
  In r rs -> map_has (key r) (List.map (fun r => (key r, val r)) rs) = true.
Proof.
  unfold map_has. induction rs as [|r' rs IH]; intros Hin; [destruct Hin|].
  cbn [List.map map_get]. destruct (String.eqb (key r) (key r')) eqn:E.
  - reflexivity.
  - destruct Hin as [-> | Hin].
    + now rewrite String.eqb_refl in E.
    + now apply IH.
Qed.

Lemma count_up_length n i : List.length (count_up n i) = n.
Proof.
  revert i. induction n as [|n IH]; intros i; simpl; [reflexivity|].
  now rewrite IH.
Qed.

Lemma counters_first n : 0 < n -> In (counter_bytes 0) (counters n).
Proof.
  intros H. unfold counters.
  destruct (Z.to_nat n) as [|k] eqn:E; [lia|]. now left.
Qed.

(** C2, evaluated at [MAX_LINKS + 1] insertions in sequence (identifiers
    from the random bytes [0, 1, 2, ...], all at one clock value) and at
    [MAX_CACHE + 1] warm-ups of distinct resources: the registry then holds
    [MAX_LINKS + 1] entries with the first inserted one still present, and
    the cache holds [MAX_CACHE + 1] entries.  The sweep runs before the
    insertion and nothing runs after it. *)
Theorem capacity_exceeded_by_one :
  let store := storeLinks 0 sample_link (counters (MAX_LINKS + 1)) [] in
  map_size store = MAX_LINKS + 1
  /\ map_has (createShortId (counter_bytes 0)) store = true
  /\ map_size (videoCache (warm_all (MAX_CACHE + 1))) = MAX_CACHE + 1.
Proof.
  cbv zeta. rewrite storeLinks_fresh.
  - rewrite app_nil_l. split; [|split].
    + unfold map_size, counters. rewrite length_map, count_up_length.
      unfold MAX_LINKS. lia.
    + apply (map_has_listed createShortId (fun _ => mkLinkEntry sample_link 0)).
      apply counters_first. unfold MAX_LINKS. lia.
    + vm_compute. reflexivity.
  - intros kv [].
  - rewrite app_nil_l. apply counters_ids_NoDup. vm_compute. reflexivity.
  - unfold map_size, counters. rewrite count_up_length.
    unfold MAX_LINKS. simpl List.length. lia.
Qed.

Example sample_id_generated :
  createShortId (random_bytes sample_env) = sample_id.
Proof. reflexivity. Qed.

(** The identifier has six characters, whatever the random bytes. *)
Lemma createShortId_length r : String.length (createShortId r) = 6%nat.
Proof. reflexivity. Qed.

(** C4 as stated fails: [storeLink] does not compare the new identifier
    with the live ones.  When [crypto.randomBytes] returns the same four
    bytes twice, the second call stores under the identifier of the first,
    whose entry is alive in the swept registry, and replaces it. *)
Lemma storeLink_reuses_live_identifier :
  let r := Rand4 x3a x07 xc4 x51 in
  let first := storeLink 0 0 r sample_link [] in
  let second := storeLink 1000 1000 r other_link (snd first) in
  fst second = fst first
  /\ map_get (fst first) (pruneLinks 1000 (snd first))
     = Some (mkLinkEntry sample_link 0)
  /\ map_get (fst first) (snd second) = Some (mkLinkEntry other_link 1000)
  /\ map_size (snd second) = 1.
Proof. vm_compute. repeat split; reflexivity. Qed.

(** C4, amended: the identifier is the base64url text of the four random
    bytes; when the swept registry does not hold it, the new entry is
    appended and every entry that survived the sweep stays as it was. *)
Theorem storeLink_fresh_identifier_keeps_entries
    now_sweep now_set r data (store : LinkStore) :
  map_get (createShortId r) (pruneLinks now_sweep store) = None ->
  let result := storeLink now_sweep now_set r data store in
  fst result = createShortId r
  /\ snd result
     = (pruneLinks now_sweep store
          ++ [(createShortId r, mkLinkEntry data now_set)])%list
  /\ (forall id entry,
        map_get id (pruneLinks now_sweep store) = Some entry ->
        map_get id (snd result) = Some entry).
Proof.
  intros Hfresh. cbv zeta. unfold storeLink. cbn [fst snd].
  split; [reflexivity|]. split.
  - now apply map_set_fresh.
  - intros id entry Hget. rewrite map_get_set_other; [exact Hget|].
    intros Heq. rewrite <- Heq in Hget. congruence.
Qed.

Lemma storeLink_fresh_identifier_keeps_entries_witness :
  let store := snd (storeLink 0 0 (Rand4 x3a x07 xc4 x51) sample_link []) in
  let result := storeLink 1000 1000 (Rand4 x3a x07 xc4 x52) other_link store in
  map_get (createShortId (Rand4 x3a x07 xc4 x51)) (snd result)
  = Some (mkLinkEntry sample_link 0).
Proof.
  cbv zeta.
  apply (storeLink_fresh_identifier_keeps_entries 1000 1000
           (Rand4 x3a x07 xc4 x52) other_link
           (snd (storeLink 0 0 (Rand4 x3a x07 xc4 x51) sample_link []))).
  - vm_compute. reflexivity.
  - vm_compute. reflexivity.
Defined.

(* ================================================================== *)
(** ** Buffers *)

Lemma buffer_length_nonneg (b : Buffer) : 0 <= buffer_length b.
Proof. unfold buffer_length. lia. Qed.

(** Inside the buffer, [subarray(start, stop + 1)] is the run of bytes from
    index [start] to index [stop]. *)
Lemma subarray_inside (b : Buffer) (start stop : Z) :
  0 <= start < buffer_length b -> 0 <= stop < buffer_length b ->
  subarray b (Num start) (num_add (Num stop) 1)
  = firstn (Z.to_nat (stop + 1 - start)) (skipn (Z.to_nat start) b).
Proof.
  intros Hs He. unfold subarray, num_add, to_index, clamp_index.
  assert (E1 : (start <? 0) = false) by (apply Z.ltb_ge; lia).
  assert (E2 : (stop + 1 <? 0) = false) by (apply Z.ltb_ge; lia).
  rewrite E1, E2.
  replace (Z.min start (buffer_length b)) with start by lia.
  replace (Z.min (stop + 1) (buffer_length b)) with (stop + 1) by lia.
  f_equal. lia.
Qed.



(* ================================================================== *)
(** ** Decimal numerals and [parseInt] *)

Lemma span_all p s : string_forall p s = true -> span p s = (s, EmptyString).
Proof.
  induction s as [|c s IH]; simpl; [reflexivity|].
  intros H. apply andb_true_iff in H. destruct H as [Hc Hs].
  now rewrite Hc, IH.
Qed.

Lemma split_no_separator sep s :
  string_forall (fun c => negb (Ascii.eqb c sep)) s = true ->
  split sep s = [s].
Proof.
  induction s as [|c s IH]; simpl; [reflexivity|].
  intros H. apply andb_true_iff in H. destruct H as [Hc Hs].
  apply negb_true_iff in Hc. now rewrite Hc, IH.
Qed.

Lemma string_forall_impl (p q : ascii -> bool) s :
  (forall c, p c = true -> q c = true) ->
  string_forall p s = true -> string_forall q s = true.
Proof.
  intros Hpq. induction s as [|c s IH]; simpl; [reflexivity|].
  intros H. apply andb_true_iff in H. destruct H as [Hc Hs].
  now rewrite (Hpq c Hc), IH.
Qed.

Lemma digit_not_space c : is_digit c = true -> is_js_space c = false.
Proof.
  destruct c as [[] [] [] [] [] [] [] []]; vm_compute; congruence.
Qed.

Lemma digit_not_dash c :
  is_digit c = true -> negb (Ascii.eqb c "-") = true.
Proof.
  destruct c as [[] [] [] [] [] [] [] []]; vm_compute; congruence.
Qed.

(** A string that starts with a digit has neither white space nor a sign
    for [parseInt] to drop. *)
Lemma parseInt_digits c s :
  is_digit c = true -> string_forall is_digit s = true ->
  parseInt (String c s) = Num (digits_value 0 (String c s)).
Proof.
  intros Hc Hs. unfold parseInt.
  assert (Hsp : snd (span is_js_space (String c s)) = String c s).
  { simpl. now rewrite (digit_not_space c Hc). }
  rewrite Hsp.
  assert (Hsign :
    match String c s with
    | String "-" r => (-1, r)
    | String "+" r => (1, r)
    | _ => (1, String c s)
    end = (1, String c s)).
  { destruct c as [[] [] [] [] [] [] [] []]; try reflexivity;
      vm_compute in Hc; discriminate. }
  rewrite Hsign.
  rewrite span_all by (simpl; now rewrite Hc, Hs).
  cbn [fst]. now rewrite Z.mul_1_l.
Qed.

Lemma uint_digits d :
  string_forall is_digit (NilEmpty.string_of_uint d) = true.
Proof. induction d; simpl; try reflexivity; exact IHd. Qed.

Lemma digits_value_acc d : forall acc : positive,
  digits_value (Z.pos acc) (NilEmpty.string_of_uint d)
  = Z.pos (Pos.of_uint_acc d acc).
Proof.
  induction d; intros acc; cbn [NilEmpty.string_of_uint digits_value Pos.of_uint_acc];
    [reflexivity | rewrite <- IHd; f_equal; unfold digit_val; simpl N_of_ascii; lia ..].
Qed.

Lemma digits_value_uint d :
  digits_value 0 (NilEmpty.string_of_uint d) = Z.of_N (Pos.of_uint d).
Proof.
  induction d; cbn [NilEmpty.string_of_uint digits_value Pos.of_uint];
    [reflexivity | exact IHd | apply (digits_value_acc d) ..].
Qed.

Lemma number_to_string_nonneg n :
  0 <= n -> number_to_string n = NilEmpty.string_of_uint (N.to_uint (Z.to_N n)).
Proof.
  intros H. unfold number_to_string. destruct n as [|p|p]; try reflexivity. lia.
Qed.

Lemma to_uint_cons n :
  exists c s, NilEmpty.string_of_uint (N.to_uint n) = String c s
              /\ is_digit c = true /\ string_forall is_digit s = true.
Proof.
  pose proof (uint_digits (N.to_uint n)) as Hd.
  destruct (NilEmpty.string_of_uint (N.to_uint n)) as [|c s] eqn:E.
  - exfalso. destruct n as [|p]; [discriminate E|].
    apply (DecimalPos.Unsigned.to_uint_nonnil p).
    cbn [N.to_uint] in E. destruct (Pos.to_uint p); [reflexivity | discriminate E ..].
  - simpl in Hd. apply andb_true_iff in Hd. exists c, s. tauto.
Qed.

(** [parseInt] reads back the decimal rendering of a non-negative
    integer. *)
Lemma parseInt_number_to_string n :
  0 <= n -> parseInt (number_to_string n) = Num n.
Proof.
  intros H. rewrite number_to_string_nonneg by assumption.
  destruct (to_uint_cons (Z.to_N n)) as [c [s [E [Hc Hs]]]].
  rewrite E, parseInt_digits by assumption. rewrite <- E.
  rewrite digits_value_uint.
  change (Pos.of_uint (N.to_uint (Z.to_N n))) with (N.of_uint (N.to_uint (Z.to_N n))).
  rewrite DecimalN.Unsigned.of_to. f_equal. lia.
Qed.

(** The suffix form [bytes=-N] is read as start [0] and end [N]. *)
Lemma parse_range_suffix n :
  0 <= n -> parse_range ("bytes=-" ++ number_to_string n) = (0, Some (Num n)).
Proof.
  intros H. pose proof (parseInt_number_to_string H) as Hparse.
  rewrite number_to_string_nonneg in * by assumption.
  destruct (to_uint_cons (Z.to_N n)) as [c [s [E [Hc Hs]]]].
  rewrite E in *. unfold parse_range.
  change (remove_first "bytes=" ("bytes=-" ++ String c s))
    with (String "-" (String c s)).
  change (split "-" (String "-" (String c s)))
    with (EmptyString :: split "-" (String c s)).
  rewrite split_no_separator.
  - cbn [nth nth_error str_truthy]. now rewrite Hparse.
  - apply string_forall_impl with (p := is_digit); [apply digit_not_dash|].
    simpl. now rewrite Hc, Hs.
Qed.

(* ================================================================== *)
(** ** Streaming proxy *)

Lemma str_truthy_nonempty s : s <> EmptyString -> str_truthy s = true.
Proof. destruct s; [congruence | reflexivity]. Qed.

Section ProxyFacts.
Variable hostname : string -> option string.

(** The route once the identifier has resolved to a trusted entry and the
    request carries a non-empty [Range] header. *)
Lemma playback_with_range st id hdr entry :
  map_get id (linkStore st) = Some entry ->
  isGoFile hostname (videoUrl (link_data entry)) = true ->
  hdr <> EmptyString ->
  playback hostname (mkRequest (Some id) (Some hdr)) st
  = match map_get (cacheKey (videoUrl (link_data entry))) (videoCache st) with
    | Some c =>
        match serve_cached (fst (parse_range hdr)) (snd (parse_range hdr))
                c cors_response with
        | Some answer => (st, Done answer)
        | None => live_stream entry (mkRequest (Some id) (Some hdr)) st
        end
    | None => live_stream entry (mkRequest (Some id) (Some hdr)) st
    end.
Proof.
  intros Hlink Htrust Hhdr. unfold playback. cbn [query_id header_range].
  rewrite Hlink, Htrust. cbn [negb].
  rewrite (str_truthy_nonempty Hhdr).
  destruct (parse_range hdr) as [rStart rEnd]. cbn [fst snd].
  destruct (map_get (cacheKey (videoUrl (link_data entry))) (videoCache st));
    reflexivity.
Qed.

Lemma serve_cached_inside rStart rEnd c stop :
  effective_end rEnd c = Num stop ->
  0 <= rStart < buffer_length (buffer c) ->
  stop < buffer_length (buffer c) ->
  exists res,
    serve_cached rStart rEnd c cors_response = Some res
    /\ status res = 206
    /\ body res = Binary (subarray (buffer c) (Num rStart) (Num (stop + 1)))
    /\ map_get "Content-Type" (headers res) = Some (contentType c)
    /\ map_get "Content-Length" (headers res)
       = Some (number_to_string
                 (buffer_length
                    (subarray (buffer c) (Num rStart) (Num (stop + 1)))))
    /\ map_get "Accept-Ranges" (headers res) = Some "bytes"
    /\ map_get "Content-Range" (headers res)
       = match totalSize c with
         | Some (Num total) =>
             if total =? 0 then None
             else Some (content_range_text rStart stop total)
         | _ => None
         end.
Proof.
  intros Hend Hstart Hstop. unfold serve_cached. rewrite Hend.
  assert (E1 : (rStart <? buffer_length (buffer c)) = true)
    by (apply Z.ltb_lt; lia).
  assert (E2 : num_lt (Num stop) (Num (buffer_length (buffer c))) = true)
    by (apply Z.ltb_lt; lia).
  rewrite E1, E2. cbn [andb num_add].
  eexists. split; [reflexivity|].
  destruct (totalSize c) as [[|total]|]; cbn [total_truthy num_truthy];
    [ | destruct (total =? 0); cbn [negb] | ];
    repeat split; reflexivity.
Qed.


(** C3: with a [Range] header whose start is at or beyond the cached
    buffer's length, or whose effective end is, the route does not answer
    from the cache: it opens the live stream, forwarding the header. *)
Theorem range_outside_cache_streams_live st id hdr entry c rStart rEnd :
  map_get id (linkStore st) = Some entry ->
  isGoFile hostname (videoUrl (link_data entry)) = true ->
  parse_range hdr = (rStart, rEnd) ->
  map_get (cacheKey (videoUrl (link_data entry))) (videoCache st) = Some c ->
  (buffer_length (buffer c) <= rStart
   \/ exists stop, effective_end rEnd c = Num stop
                   /\ buffer_length (buffer c) <= stop) ->
  playback hostname (mkRequest (Some id) (Some hdr)) st
  = (st,
     Await (stream_config (videoUrl (link_data entry))
              (token (link_data entry)) (Some hdr))
       (stream_settled cors_response)).
Proof.
  intros Hlink Htrust Hparse Hcache Hout.
  destruct hdr as [|ch hdr'] eqn:Ehdr.
  - unfold playback. cbn [query_id header_range]. rewrite Hlink, Htrust.
    cbn [negb str_truthy].
    destruct (map_get (cacheKey (videoUrl (link_data entry))) (videoCache st));
      reflexivity.
  - rewrite <- Ehdr in *.
    assert (Hne : hdr <> EmptyString) by (rewrite Ehdr; discriminate).
    rewrite (@playback_with_range st id hdr entry Hlink Htrust Hne), Hcache, Hparse.
    cbn [fst snd]. unfold serve_cached.
    assert (E : ((rStart <? buffer_length (buffer c))
                 && num_lt (effective_end rEnd c)
                      (Num (buffer_length (buffer c))))%bool = false).
    { destruct Hout as [Hs | [stop [Hend Hs]]].
      - apply andb_false_iff. left. apply Z.ltb_ge. exact Hs.
      - apply andb_false_iff. right. rewrite Hend. apply Z.ltb_ge. exact Hs. }
    rewrite E. reflexivity.
Qed.

(** C10: the suffix form [bytes=-N] is parsed as start [0] and end [N];
    when the cached buffer is longer than [N] the route answers with
    status 206 and the leading [N + 1] bytes of the buffer. *)
Theorem suffix_range_served_as_prefix st id entry c n :
  0 <= n ->
  map_get id (linkStore st) = Some entry ->
  isGoFile hostname (videoUrl (link_data entry)) = true ->
  map_get (cacheKey (videoUrl (link_data entry))) (videoCache st) = Some c ->
  n < buffer_length (buffer c) ->
  parse_range ("bytes=-" ++ number_to_string n) = (0, Some (Num n))
  /\ exists res,
       playback hostname
         (mkRequest (Some id) (Some ("bytes=-" ++ number_to_string n)%string))
         st
       = (st, Done res)
       /\ status res = 206
       /\ body res = Binary (firstn (Z.to_nat (n + 1)) (buffer c)).
Proof.
  intros Hn Hlink Htrust Hcache Hlen.
  split; [now apply parse_range_suffix|].
  assert (Hne : ("bytes=-" ++ number_to_string n)%string <> EmptyString)
    by discriminate.
  rewrite (@playback_with_range st id _ entry Hlink Htrust Hne), Hcache.
  rewrite (parse_range_suffix Hn). cbn [fst snd].
  destruct (@serve_cached_inside 0 (Some (Num n)) c n eq_refl)
    as [res [Hserve [Hst [Hbody _]]]]; [lia | lia |].
  rewrite Hserve. exists res. split; [reflexivity|]. split; [assumption|].
  rewrite Hbody.
  change (Num (n + 1)) with (num_add (Num n) 1).
  rewrite subarray_inside by lia.
  f_equal. rewrite Z.sub_0_r. reflexivity.
Qed.

End ProxyFacts.

(** *** The three range theorems at the warmed example state *)



Lemma range_outside_cache_streams_live_witness :
  playback https_hostname (mkRequest (Some sample_id) (Some "bytes=2-9"))
    warmed_state
  = (warmed_state,
     Await (stream_config (videoUrl sample_link) (token sample_link)
              (Some "bytes=2-9"))
       (stream_settled cors_response)).
Proof.
  apply (@range_outside_cache_streams_live https_hostname warmed_state
           sample_id "bytes=2-9" (mkLinkEntry sample_link 0) sample_entry
           2 (Some (Num 9))).
  - reflexivity.
  - reflexivity.
  - reflexivity.
  - reflexivity.
  - right. exists 9. split; [reflexivity | vm_compute; discriminate].
Defined.

Lemma suffix_range_served_as_prefix_witness :
  parse_range ("bytes=-" ++ number_to_string 2) = (0, Some (Num 2))
  /\ exists res,
       playback https_hostname
         (mkRequest (Some sample_id) (Some ("bytes=-" ++ number_to_string 2)%string))
         warmed_state
       = (warmed_state, Done res)
       /\ status res = 206
       /\ body res = Binary (firstn (Z.to_nat (2 + 1)) (buffer sample_entry)).
Proof.
  apply (@suffix_range_served_as_prefix https_hostname warmed_state sample_id
           (mkLinkEntry sample_link 0) sample_entry 2).
  - lia.
  - reflexivity.
  - reflexivity.
  - reflexivity.
  - vm_compute. reflexivity.
Defined.

(** *** Error responses of the route *)

Lemma playback_await_inv hostname req st cfg k :
  snd (playback hostname req st) = Await cfg k ->
  k = stream_settled cors_response
  /\ exists entry,
       cfg = stream_config (videoUrl (link_data entry))
               (token (link_data entry)) (header_range req).
Proof.
  unfold playback.
  destruct (match query_id req with
            | Some id => map_get id (linkStore st)
            | None => None
            end) as [entry|]; [|discriminate].
  destruct (negb (isGoFile hostname (videoUrl (link_data entry))));
    [discriminate|].
  destruct (match header_range req with
            | Some r => if str_truthy r then Some r else None
            | None => None
            end) as [r|].
  - destruct (parse_range r) as [rStart rEnd].
    destruct (map_get (cacheKey (videoUrl (link_data entry))) (videoCache st))
      as [c|].
    + destruct (serve_cached rStart rEnd c cors_response); [discriminate|].
      cbn [snd]. intros [= <- <-]. split; [reflexivity|]. now exists entry.
    + cbn [snd]. intros [= <- <-]. split; [reflexivity|]. now exists entry.
  - destruct (map_get (cacheKey (videoUrl (link_data entry))) (videoCache st));
      cbn [snd]; intros [= <- <-]; (split; [reflexivity|]); now exists entry.
Qed.

(** C7: an identifier that the registry does not hold is answered with 404
    and the text [Link expired or not found.], the state is unchanged and
    no origin call is made; an entry whose URL fails [isGoFile] is answered
    with 403; and when the live-stream call is rejected, the answer is the
    origin's status when the error carries one, otherwise 502. *)
Theorem playback_error_responses hostname st id range :
  (map_get id (linkStore st) = None ->
   playback hostname (mkRequest (Some id) range) st
   = (st,
      Done (mkHttp 404 (headers cors_response)
              (Text "Link expired or not found."))))
  /\ (forall entry,
        map_get id (linkStore st) = Some entry ->
        isGoFile hostname (videoUrl (link_data entry)) = false ->
        playback hostname (mkRequest (Some id) range) st
        = (st, Done (mkHttp 403 (headers cors_response) (Text "Invalid source."))))
  /\ (forall cfg k,
        snd (playback hostname (mkRequest (Some id) range) st) = Await cfg k ->
        forall err st',
        exists res,
          k (Rejected err) st'
          = (log_error ("[proxy] " ++ err_message err) st', Done res)
          /\ body res = Text "Proxy error"
          /\ status res
             = match err_status err with
               | Some s => if s =? 0 then 502 else s
               | None => 502
               end
          /\ linkStore (fst (k (Rejected err) st')) = linkStore st'
          /\ videoCache (fst (k (Rejected err) st')) = videoCache st').
Proof.
  split; [|split].
  - intros Hmiss. unfold playback. cbn [query_id]. now rewrite Hmiss.
  - intros entry Hlink Htrust. unfold playback. cbn [query_id].
    now rewrite Hlink, Htrust.
  - intros cfg k Hawait err st'.
    apply playback_await_inv in Hawait. destruct Hawait as [-> _].
    eexists. repeat split.
Qed.

Lemma playback_error_responses_witness :
  playback https_hostname (mkRequest (Some "zzzzzz") None) linked_state
  = (linked_state,
     Done (mkHttp 404 (headers cors_response) (Text "Link expired or not found.")))
  /\ playback https_hostname (mkRequest (Some sample_id) None) foreign_state
     = (foreign_state,
        Done (mkHttp 403 (headers cors_response) (Text "Invalid source.")))
  /\ exists res,
       stream_settled cors_response
         (Rejected (mkError "Request failed with status code 503" (Some 503) None))
         linked_state
       = (log_error "[proxy] Request failed with status code 503" linked_state,
          Done res)
       /\ body res = Text "Proxy error"
       /\ status res = 503.
Proof.
  split; [|split].
  - apply (proj1 (playback_error_responses https_hostname linked_state
                    "zzzzzz" None)).
    reflexivity.
  - apply (proj1 (proj2 (playback_error_responses https_hostname foreign_state
                           sample_id None))
             (mkLinkEntry foreign_link 0)).
    + reflexivity.
    + reflexivity.
  - destruct (proj2 (proj2 (playback_error_responses https_hostname
                              linked_state sample_id None))
                (stream_config (videoUrl sample_link) (token sample_link) None)
                (stream_settled cors_response) eq_refl
                (mkError "Request failed with status code 503" (Some 503) None)
                linked_state)
      as [res [Hk [Hbody [Hstatus _]]]].
    exists res. split; [exact Hk|]. split; [exact Hbody | exact Hstatus].
Defined.

(* ================================================================== *)
(** ** Cache warm-up *)

Lemma prefetch_never_throws now_sweep now_set url tok st :
  never_throws (snd (prefetch now_sweep now_set url tok st)).
Proof.
  unfold prefetch. destruct (map_has (cacheKey url) (videoCache st)); cbn [snd].
  - constructor.
  - constructor. intros [resp | err] st'; cbn [snd]; constructor.
Qed.

Lemma prefetch_first_segment now_sweep now_set url tok st :
  fst (prefetch now_sweep now_set url tok st) = st.
Proof.
  unfold prefetch. now destruct (map_has (cacheKey url) (videoCache st)).
Qed.

(** C6: the warm-up never ends in a rejected promise; its first segment
    leaves the state as it is; when its origin call fails, the continuation
    only writes a line to the console, so registry and cache are what they
    were when the call settled, and no entry is stored under the derived
    key.  The handler that starts the warm-up has answered without waiting
    for it. *)
Theorem prefetch_failure_swallowed now_sweep now_set url tok st err st' :
  never_throws (snd (prefetch now_sweep now_set url tok st))
  /\ fst (prefetch now_sweep now_set url tok st) = st
  /\ match snd (prefetch now_sweep now_set url tok st) with
     | Done _ => map_has (cacheKey url) (videoCache st) = true
     | Throw _ => False
     | Await cfg k =>
         map_has (cacheKey url) (videoCache st) = false
         /\ cfg = prefetch_config url tok
         /\ k (Rejected err) st'
            = (log_error ("[cache] prefetch failed: " ++ err_message err) st',
               Done tt)
         /\ videoCache (fst (k (Rejected err) st')) = videoCache st'
         /\ linkStore (fst (k (Rejected err) st')) = linkStore st'
     end
  /\ videoCache (prefetch_settled now_sweep now_set url tok (Rejected err) st)
     = videoCache st
  /\ map_has (cacheKey url)
       (videoCache (prefetch_settled now_sweep now_set url tok (Rejected err) st))
     = map_has (cacheKey url) (videoCache st)
  /\ (forall BASE_URL env video,
        exists st1 answer warmup,
          generate_store BASE_URL env tok video st
          = (st1, Done (mkHandled answer (Some warmup)))
          /\ never_throws warmup).
Proof.
  split; [apply prefetch_never_throws|].
  split; [apply prefetch_first_segment|].
  assert (Hsame :
    videoCache (prefetch_settled now_sweep now_set url tok (Rejected err) st)
    = videoCache st).
  { unfold prefetch_settled, prefetch.
    destruct (map_has (cacheKey url) (videoCache st)); reflexivity. }
  split; [|split; [exact Hsame | split; [now rewrite Hsame|]]].
  - unfold prefetch. destruct (map_has (cacheKey url) (videoCache st)); cbn [snd].
    + reflexivity.
    + repeat split.
  - intros BASE_URL env video. unfold generate_store.
    destruct (storeLink (links_now_sweep env) (links_now_set env)
                (random_bytes env)
                (mkLinkData (child_link video) tok
                   (or_default (child_thumbnail video) "")
                   (or_default (child_name video) "video.mp4") 1920 1080)
                (linkStore st)) as [id links].
    pose proof (prefetch_never_throws (cache_now_sweep env) (cache_now_set env)
                  (child_link video) tok (set_linkStore links st)) as Hnt.
    destruct (prefetch (cache_now_sweep env) (cache_now_set env)
                (child_link video) tok (set_linkStore links st))
      as [st1 warmup].
    cbn [snd] in Hnt. eexists. eexists. exists warmup. split; [reflexivity | exact Hnt].
Qed.

(** A successful warm-up stores the response body under the derived key. *)
Lemma prefetch_store_get now_sweep now_set key resp st :
  exists c,
    map_get key (videoCache (prefetch_store now_sweep now_set key resp st))
    = Some c
    /\ buffer c = resp_data resp
    /\ cache_createdAt c = now_set.
Proof.
  unfold prefetch_store, set_videoCache. cbn [videoCache].
  rewrite map_get_set_same. eexists. repeat split.
Qed.

(** As in the registry, the sweep precedes the insertion: the cache can
    hold one entry more than [MAX_CACHE] when the warm-up returns. *)
Lemma prefetch_store_size_bound now_sweep now_set key resp st :
  NoDup (map_keys (videoCache st)) ->
  map_size (videoCache (prefetch_store now_sweep now_set key resp st))
  <= MAX_CACHE + 1.
Proof.
  intros Hnd. unfold prefetch_store, set_videoCache. cbn [videoCache].
  pose proof (@prune_size _ cache_createdAt CACHE_TTL MAX_CACHE now_sweep
                (videoCache st) MAX_CACHE_nonneg Hnd) as Hp.
  fold (pruneCache now_sweep (videoCache st)) in Hp.
  match goal with
  | |- map_size (map_set ?k ?v ?m) <= _ =>
      pose proof (map_set_size_le k v m)
  end.
  lia.
Qed.

Lemma prefetch_settled_fulfilled now_sweep now_set url tok resp st :
  map_has (cacheKey url) (videoCache st) = false ->
  prefetch_settled now_sweep now_set url tok (Fulfilled resp) st
  = prefetch_store now_sweep now_set (cacheKey url) resp st.
Proof.
  intros H. unfold prefetch_settled, prefetch. now rewrite H.
Qed.





(* ================================================================== *)
(** ** Cache key: links to one origin URL share one entry *)

Lemma prefetch_store_linkStore now_sweep now_set key resp st :
  linkStore (prefetch_store now_sweep now_set key resp st) = linkStore st.
Proof. reflexivity. Qed.

(** C8: [cacheKey] is a function of the URL text alone, so two links whose
    entries carry the same origin URL derive the same key.  After one
    warm-up through the first link the cache holds one entry under that
    key; a warm-up through the second link finds it and makes no origin
    call; and the route gives the same cache answer under either
    identifier. *)
Theorem same_origin_links_share_cache_entry
    hostname st id1 id2 e1 e2 now_sweep now_set resp :
  map_get id1 (linkStore st) = Some e1 ->
  map_get id2 (linkStore st) = Some e2 ->
  videoUrl (link_data e1) = videoUrl (link_data e2) ->
  map_has (cacheKey (videoUrl (link_data e1))) (videoCache st) = false ->
  NoDup (map_keys (videoCache st)) ->
  let key := cacheKey (videoUrl (link_data e1)) in
  let st1 :=
    prefetch_settled now_sweep now_set (videoUrl (link_data e1))
      (token (link_data e1)) (Fulfilled resp) st in
  cacheKey (videoUrl (link_data e2)) = key
  /\ NoDup (map_keys (videoCache st1))
  /\ (exists c, map_get key (videoCache st1) = Some c
                /\ buffer c = resp_data resp)
  /\ (forall a b,
        prefetch a b (videoUrl (link_data e2)) (token (link_data e2)) st1
        = (st1, Done tt))
  /\ (forall range res,
        playback hostname (mkRequest (Some id1) range) st1 = (st1, Done res)
        <-> playback hostname (mkRequest (Some id2) range) st1 = (st1, Done res)).
Proof.
  intros Hl1 Hl2 Hurl Hcold Hnd. cbv zeta.
  rewrite prefetch_settled_fulfilled by assumption.
  set (key := cacheKey (videoUrl (link_data e1))).
  set (st1 := prefetch_store now_sweep now_set key resp st).
  destruct (prefetch_store_get now_sweep now_set key resp st)
    as [c [Hget [Hbuf _]]]. fold st1 in Hget.
  split; [unfold key; now rewrite Hurl|].
  split.
  { unfold st1, prefetch_store, set_videoCache. cbn [videoCache].
    apply map_set_keys_NoDup. unfold pruneCache.
    apply prune_keys_NoDup; [apply MAX_CACHE_nonneg | exact Hnd]. }
  split; [exists c; now split|].
  split.
  { intros a b. unfold prefetch. rewrite <- Hurl. fold key.
    unfold map_has. now rewrite Hget. }
  intros range res. unfold playback. cbn [query_id header_range].
  assert (Hls : linkStore st1 = linkStore st) by reflexivity.
  rewrite !Hls, Hl1, Hl2, <- Hurl. fold key. rewrite Hget.
  destruct (negb (isGoFile hostname (videoUrl (link_data e1)))); [tauto|].
  destruct (match range with
            | Some r => if str_truthy r then Some r else None
            | None => None
            end) as [r|].
  - destruct (parse_range r) as [rStart rEnd].
    destruct (serve_cached rStart rEnd c cors_response); [tauto|].
    split; discriminate.
  - split; discriminate.
Qed.

Lemma same_origin_links_share_cache_entry_witness :
  let st1 :=
    prefetch_settled 10 10 (videoUrl sample_link) (token sample_link)
      (Fulfilled sample_chunk) two_links_state in
  prefetch 20 20 (videoUrl second_link) (token second_link) st1 = (st1, Done tt)
  /\ exists res,
       playback https_hostname (mkRequest (Some second_id) (Some "bytes=0-1")) st1
       = (st1, Done res)
       /\ status res = 206
       /\ body res = Binary [x00; x00].
Proof.
  cbv zeta.
  destruct (@same_origin_links_share_cache_entry https_hostname two_links_state
              sample_id second_id (mkLinkEntry sample_link 0)
              (mkLinkEntry second_link 5) 10 10 sample_chunk
              eq_refl eq_refl eq_refl eq_refl)
    as [_ [_ [_ [Hwarm Hsame]]]].
  - simpl. constructor.
  - split; [apply Hwarm|].
    eexists. split; [apply Hsame; vm_compute; reflexivity|].
    split; reflexivity.
Defined.

(* ================================================================== *)
(** ** Timeouts of the origin calls *)

Lemma issues_done_inv (A : Type) (a : A) c : ~ issues (Done a) c.
Proof. intros H. inversion H. Qed.

Lemma issues_await_inv (A : Type) c (k : AxiosResult -> State -> State * task A) c' :
  issues (Await c k) c' ->
  c' = c \/ exists r st, issues (snd (k r st)) c'.
Proof.
  intros H. inversion H; subst.
  - now left.
  - right. eauto.
Qed.

Lemma prefetch_issues now_sweep now_set url tok st c :
  issues (snd (prefetch now_sweep now_set url tok st)) c ->
  c = prefetch_config url tok.
Proof.
  unfold prefetch. destruct (map_has (cacheKey url) (videoCache st)); cbn [snd].
  - intros H. now apply issues_done_inv in H.
  - intros H. apply issues_await_inv in H.
    destruct H as [-> | [r [st' H]]]; [reflexivity|].
    destruct r; cbn [snd] in H; now apply issues_done_inv in H.
Qed.

Lemma playback_issues hostname req st c :
  issues (snd (playback hostname req st)) c ->
  exists url tok, c = stream_config url tok (header_range req).
Proof.
  intros H.
  destruct (snd (playback hostname req st)) as [res | e | cfg k] eqn:E.
  - now apply issues_done_inv in H.
  - inversion H.
  - apply playback_await_inv in E. destruct E as [-> [entry ->]].
    apply issues_await_inv in H. destruct H as [-> | [r [st' H]]].
    + eauto.
    + destruct r; cbn [stream_settled snd] in H; now apply issues_done_inv in H.
Qed.

Lemma generate_store_issues BASE_URL env tok video st c :
  ~ issues (snd (generate_store BASE_URL env tok video st)) c.
Proof.
  unfold generate_store.
  destruct (storeLink _ _ _ _ _) as [id links].
  destruct (prefetch _ _ _ _ _) as [st1 warmup]. cbn [snd].
  apply issues_done_inv.
Qed.

Lemma generate_issues BASE_URL env url st c :
  issues (snd (generate BASE_URL env url st)) c ->
  c = accounts_config \/ exists contentId tok, c = contents_config contentId tok.
Proof.
  unfold generate.
  destruct (search _ _) as [[contentId rest]|]; cbn [snd];
    [|intros H; now apply issues_done_inv in H].
  intros H. apply issues_await_inv in H.
  destruct H as [-> | [acct [st1 H]]]; [now left|]. right.
  destruct acct as [acct | err];
    [|cbn [generate_failed snd] in H; now apply issues_done_inv in H].
  destruct (api_token (resp_json acct)) as [[|ch tok]|]; cbn [snd] in H;
    try (now apply issues_done_inv in H).
  apply issues_await_inv in H.
  destruct H as [-> | [content [st2 H]]]; [eauto|]. exfalso.
  destruct content as [content | err];
    [|cbn [generate_failed snd] in H; now apply issues_done_inv in H].
  destruct (negb _); cbn [snd] in H; [now apply issues_done_inv in H|].
  destruct (api_children (resp_json content)) as [children|]; cbn [snd] in H;
    [|now apply issues_done_inv in H].
  destruct (find is_video children) as [video|]; cbn [snd] in H;
    [|now apply issues_done_inv in H].
  now apply generate_store_issues in H.
Qed.

(** C5 as stated fails: only the warm-up passes a [timeout].  The call
    that opens the live stream and the two calls of [/generate] are issued
    without one, which for axios means no time limit. *)
Lemma origin_calls_without_timeout :
  (exists c,
     issues (snd (playback https_hostname
                    (mkRequest (Some sample_id) (Some "bytes=0-99"))
                    linked_state)) c
     /\ cfg_url c = videoUrl sample_link
     /\ cfg_timeout c = None)
  /\ (exists c,
        issues (snd (generate "http://localhost:3000" sample_env
                       (Some "https://gofile.io/d/AbC123") empty_state)) c
        /\ cfg_url c = "https://api.gofile.io/accounts"
        /\ cfg_timeout c = None).
Proof.
  split.
  - exists (stream_config (videoUrl sample_link) (token sample_link)
              (Some "bytes=0-99")).
    split; [exact (issues_here _ _)|]. split; reflexivity.
  - exists accounts_config.
    split; [exact (issues_here _ _)|]. split; reflexivity.
Qed.

(** C5, amended: the warm-up's ranged read is issued with a timeout of
    15000 ms (and at most five redirects); the live-stream call and the
    guest-token and metadata calls of link creation are issued with no
    timeout option. *)
Theorem origin_call_timeouts c :
  (forall now_sweep now_set url tok st,
     issues (snd (prefetch now_sweep now_set url tok st)) c ->
     cfg_timeout c = Some 15000 /\ cfg_maxRedirects c = Some 5)
  /\ (forall hostname req st,
        issues (snd (playback hostname req st)) c -> cfg_timeout c = None)
  /\ (forall BASE_URL env url st,
        issues (snd (generate BASE_URL env url st)) c -> cfg_timeout c = None).
Proof.
  split; [|split].
  - intros now_sweep now_set url tok st H.
    apply prefetch_issues in H. subst c. split; reflexivity.
  - intros hostname req st H.
    apply playback_issues in H. destruct H as [url [tok ->]]. reflexivity.
  - intros BASE_URL env url st H.
    apply generate_issues in H.
    destruct H as [-> | [contentId [tok ->]]]; reflexivity.
Qed.

Lemma origin_call_timeouts_witness :
  cfg_timeout (prefetch_config (videoUrl sample_link) (token sample_link))
  = Some 15000
  /\ cfg_timeout (stream_config (videoUrl sample_link) (token sample_link)
                    (Some "bytes=0-99"))
     = None
  /\ cfg_timeout accounts_config = None.
Proof.
  split; [|split].
  - apply (proj1 (origin_call_timeouts
                    (prefetch_config (videoUrl sample_link) (token sample_link)))
             0 0 (videoUrl sample_link) (token sample_link) linked_state).
    exact (issues_here _ _).
  - apply (proj1 (proj2 (origin_call_timeouts
                           (stream_config (videoUrl sample_link)
                              (token sample_link) (Some "bytes=0-99"))))
             https_hostname (mkRequest (Some sample_id) (Some "bytes=0-99"))
             linked_state).
    exact (issues_here _ _).
  - apply (proj2 (proj2 (origin_call_timeouts accounts_config))
             "http://localhost:3000" sample_env
             (Some "https://gofile.io/d/AbC123") empty_state).
    exact (issues_here _ _).
Defined.

(* ================================================================== *)
(** ** HTML escaping *)

Lemma string_forall_app p s t :
  string_forall p (s ++ t) = (string_forall p s && string_forall p t)%bool.
Proof.
  induction s as [|c s IH]; simpl; [reflexivity|].
  now rewrite IH, andb_assoc.
Qed.

Lemma string_app_assoc (s t u : string) :
  ((s ++ t) ++ u = s ++ (t ++ u))%string.
Proof. induction s as [|c s IH]; simpl; [reflexivity | now rewrite IH]. Qed.

Lemma replace_char_app c r s t :
  replace_char c r (s ++ t)
  = (replace_char c r s ++ replace_char c r t)%string.
Proof.
  induction s as [|a s IH]; simpl; [reflexivity|].
  destruct (Ascii.eqb a c); rewrite IH; [|reflexivity].
  now rewrite string_app_assoc.
Qed.

Lemma esc_app s t : esc (s ++ t) = (esc s ++ esc t)%string.
Proof. unfold esc. now rewrite !replace_char_app. Qed.

Lemma esc_one a : esc (String a EmptyString) = esc_char a.
Proof. destruct a as [[] [] [] [] [] [] [] []]; reflexivity. Qed.

(** The four passes of [esc] amount to one pass that rewrites each
    character on its own: the text written by an earlier pass contains no
    character that a later pass replaces, except the ampersand, whose pass
    has already run. *)
Lemma esc_cons a s : esc (String a s) = (esc_char a ++ esc s)%string.
Proof.
  change (String a s) with (String a EmptyString ++ s)%string.
  now rewrite esc_app, esc_one.
Qed.

Lemma esc_char_no_markup a :
  string_forall (fun c => negb (is_markup c)) (esc_char a) = true.
Proof. destruct a as [[] [] [] [] [] [] [] []]; reflexivity. Qed.

(** X1: the text returned by [esc] contains no double quote and no angle
    bracket, whatever the input. *)
Theorem esc_output_has_no_markup s :
  string_forall (fun c => negb (is_markup c)) (esc s) = true.
Proof.
  induction s as [|a s IH]; [reflexivity|].
  now rewrite esc_cons, string_forall_app, esc_char_no_markup, IH.
Qed.

Lemma unesc_esc_char a t :
  unesc (esc_char a ++ t) = String a (unesc t).
Proof. destruct a as [[] [] [] [] [] [] [] []]; reflexivity. Qed.

(** X2: [esc] loses nothing and never escapes twice: reading the four
    entities back gives the input, so [esc] is injective. *)
Theorem esc_round_trip s :
  unesc (esc s) = s /\ (forall t, esc s = esc t -> s = t).
Proof.
  assert (Hback : forall u, unesc (esc u) = u).
  { induction u as [|a u IH]; [reflexivity|].
    now rewrite esc_cons, unesc_esc_char, IH. }
  split; [apply Hback|].
  intros t H. rewrite <- (Hback s), <- (Hback t). now rewrite H.
Qed.

(* ================================================================== *)
(** ** Short identifiers *)

Lemma string_get_forall p k s c :
  String.get k s = Some c -> string_forall p s = true -> p c = true.
Proof.
  revert k. induction s as [|a s IH]; intros k; simpl; [discriminate|].
  intros Hget H. apply andb_true_iff in H. destruct H as [Ha Hs].
  destruct k as [|k]; [now injection Hget as <- | now apply (IH k)].
Qed.

Lemma b64char_url_safe n : is_url_safe (b64char n) = true.
Proof.
  unfold b64char.
  destruct (String.get (Z.to_nat n) base64url_alphabet) as [c|] eqn:E;
    [|reflexivity].
  apply (string_get_forall is_url_safe _ _ E). reflexivity.
Qed.

(** X3: whatever the random bytes, the identifier has six characters and
    each of them is a letter, a digit, [-] or [_]. *)
Theorem createShortId_url_safe r :
  String.length (createShortId r) = 6%nat
  /\ string_forall is_url_safe (createShortId r) = true.
Proof.
  split; [reflexivity|].
  unfold createShortId. cbn [base64url string_forall].
  now rewrite !b64char_url_safe.
Qed.

(** Bit operations on small non-negative numbers, as arithmetic. *)
Lemma lor_shiftl_low x y k :
  0 <= k -> 0 <= y < 2 ^ k -> Z.lor (Z.shiftl x k) y = x * 2 ^ k + y.
Proof.
  intros Hk Hy.
  assert (Hland : Z.land (Z.shiftl x k) y = 0).
  { apply Z.bits_inj'. intros n Hn.
    rewrite Z.land_spec, Z.bits_0.
    destruct (Z.ltb_spec n k) as [Hlt | Hge].
    - rewrite Z.shiftl_spec_low by assumption. reflexivity.
    - rewrite andb_comm.
      destruct (Z.eq_dec y 0) as [-> | Hy0]; [now rewrite Z.bits_0|].
      rewrite Z.bits_above_log2; [reflexivity | lia |].
      apply Z.log2_lt_pow2; [lia|].
      apply Z.lt_le_trans with (2 ^ k); [lia|].
      apply Z.pow_le_mono_r; lia. }
  rewrite <- Z.lxor_lor by assumption.
  rewrite <- Z.add_nocarry_lxor by assumption.
  now rewrite Z.shiftl_mul_pow2.
Qed.

Lemma byteZ_range b : 0 <= byteZ b < 256.
Proof.
  unfold byteZ. pose proof (Byte.to_N_bounded b). lia.
Qed.

Lemma byteZ_inj a b : byteZ a = byteZ b -> a = b.
Proof.
  unfold byteZ. intros H. apply N2Z.inj in H.
  pose proof (Byte.of_to_N a) as Ha. rewrite H, Byte.of_to_N in Ha.
  now injection Ha.
Qed.

(** The position of [b64char n] in the alphabet is [n], for the 64 values
    of a six-bit group. *)
Lemma index_in_b64char n :
  0 <= n < 64 -> index_in (b64char n) base64url_alphabet = n.
Proof.
  intros Hn.
  assert (Hall :
    forallb (fun k => index_in (b64char (Z.of_nat k)) base64url_alphabet
                      =? Z.of_nat k)
            (seq 0 64) = true) by (vm_compute; reflexivity).
  rewrite forallb_forall in Hall.
  specialize (Hall (Z.to_nat n)).
  rewrite Z2Nat.id in Hall by lia.
  apply Z.eqb_eq, Hall, in_seq. lia.
Qed.

Lemma b64char_inj n m :
  0 <= n < 64 -> 0 <= m < 64 -> b64char n = b64char m -> n = m.
Proof.
  intros Hn Hm H.
  rewrite <- (index_in_b64char Hn), <- (index_in_b64char Hm). now rewrite H.
Qed.

(** The six-bit groups of the identifier, in arithmetic form. *)
Lemma createShortId_groups a b c d :
  createShortId (Rand4 a b c d)
  = String (b64char (byteZ a / 4))
      (String (b64char (byteZ a mod 4 * 16 + byteZ b / 16))
         (String (b64char (byteZ b mod 16 * 4 + byteZ c / 64))
            (String (b64char (byteZ c mod 64))
               (String (b64char (byteZ d / 4))
                  (String (b64char (byteZ d mod 4 * 16)) EmptyString))))).
Proof.
  pose proof (byteZ_range a). pose proof (byteZ_range b).
  pose proof (byteZ_range c). pose proof (byteZ_range d).
  unfold createShortId. cbn [base64url r0 r1 r2 r3].
  change 3 with (Z.ones 2). change 15 with (Z.ones 4). change 63 with (Z.ones 6).
  rewrite !Z.land_ones, !Z.shiftr_div_pow2 by lia.
  rewrite (Z.shiftl_mul_pow2 (byteZ d mod 2 ^ 2) 4) by lia.
  rewrite !lor_shiftl_low;
    try lia;
    try (split; [apply Z.div_pos; lia | apply Z.div_lt_upper_bound; lia]).
  reflexivity.
Qed.

(** X4: two identifiers are equal only when the random bytes are: the
    encoding maps the [2^32] values of four bytes to [2^32] different
    identifiers. *)
Theorem createShortId_injective r r' :
  createShortId r = createShortId r' -> r = r'.
Proof.
  destruct r as [a b c d], r' as [a' b' c' d'].
  rewrite !createShortId_groups.
  pose proof (byteZ_range a). pose proof (byteZ_range b).
  pose proof (byteZ_range c). pose proof (byteZ_range d).
  pose proof (byteZ_range a'). pose proof (byteZ_range b').
  pose proof (byteZ_range c'). pose proof (byteZ_range d').
  intros [= E1 E2 E3 E4 E5 E6].
  apply b64char_inj in E1, E2, E3, E4, E5, E6;
    try (Z.div_mod_to_equations; lia).
  assert (byteZ a = byteZ a') by (Z.div_mod_to_equations; lia).
  assert (byteZ b = byteZ b') by (Z.div_mod_to_equations; lia).
  assert (byteZ c = byteZ c') by (Z.div_mod_to_equations; lia).
  assert (byteZ d = byteZ d') by (Z.div_mod_to_equations; lia).
  f_equal; now apply byteZ_inj.
Qed.

Lemma createShortId_injective_witness :
  Rand4 x3a x07 xc4 x51 = Rand4 x3a x07 xc4 x51.
Proof.
  apply (@createShortId_injective (Rand4 x3a x07 xc4 x51)
           (Rand4 x3a x07 xc4 x51)).
  reflexivity.
Defined.

(* ================================================================== *)
(** ** The sweeps, on maps with distinct keys *)

Section SweepFacts.
Variable V : Type.
Variable createdAt : V -> Z.

Lemma NoDup_keys_get (m : jsmap V) k v :
  NoDup (map_keys m) -> In (k, v) m -> map_get k m = Some v.
Proof.
  unfold map_keys. induction m as [|[k' v'] m IH]; simpl; [tauto|].
  intros Hnd [Heq | Hin].
  - injection Heq as -> ->. now rewrite String.eqb_refl.
  - inversion Hnd as [|? ? Hk Hnd']; subst.
    destruct (String.eqb k k') eqn:E; [|now apply IH].
    apply String.eqb_eq in E. subst k'. exfalso. apply Hk.
    change k with (fst (k, v)). now apply in_map.
Qed.

Lemma prune_get ttl max now (m : jsmap V) k v :
  0 <= max -> NoDup (map_keys m) ->
  map_get k (prune createdAt ttl max now m) = Some v ->
  map_get k m = Some v /\ now - createdAt v <= ttl.
Proof.
  intros Hmax Hnd Hget. apply map_get_in in Hget.
  destruct (@prune_In _ createdAt ttl max now m (k, v) Hmax Hnd Hget)
    as [Hin Halive].
  split; [now apply NoDup_keys_get | exact Halive].
Qed.

Lemma prune_expired_gone ttl max now (m : jsmap V) k v :
  0 <= max -> NoDup (map_keys m) ->
  map_get k m = Some v -> ttl < now - createdAt v ->
  map_get k (prune createdAt ttl max now m) = None.
Proof.
  intros Hmax Hnd Hget Hold.
  destruct (map_get k (prune createdAt ttl max now m)) as [v'|] eqn:E;
    [|reflexivity].
  destruct (prune_get _ _ _ _ Hmax Hnd E) as [Hget' Halive].
  rewrite Hget in Hget'. injection Hget' as ->. lia.
Qed.

Lemma prune_drops_prefix ttl max now (m : jsmap V) :
  0 <= max -> NoDup (map_keys m) ->
  exists dropped,
    filter (alive createdAt ttl now) m
    = (dropped ++ prune createdAt ttl max now m)%list
    /\ Z.of_nat (List.length dropped)
       = Z.max 0 (map_size (filter (alive createdAt ttl now) m) - max).
Proof.
  intros Hmax Hnd. rewrite prune_spec by assumption. cbv zeta.
  set (kept := filter (alive createdAt ttl now) m).
  exists (firstn (Z.to_nat (map_size kept - max)) kept). split.
  - now rewrite firstn_skipn.
  - rewrite length_firstn. unfold map_size. lia.
Qed.

End SweepFacts.

(** X5: on a registry and a cache with distinct keys, [pruneLinks] and
    [pruneCache] leave at most [MAX_LINKS] and [MAX_CACHE] entries; every
    entry they keep was there before, unchanged, and is not older than
    the TTL; and an entry older than the TTL can no longer be looked up.
    An entry whose age equals the TTL is kept. *)
Theorem sweeps_postcondition now (store : LinkStore) (cache : VideoCache) :
  NoDup (map_keys store) -> NoDup (map_keys cache) ->
  (map_size (pruneLinks now store) <= MAX_LINKS
   /\ (forall id e,
         map_get id (pruneLinks now store) = Some e ->
         map_get id store = Some e /\ now - link_createdAt e <= LINK_TTL)
   /\ (forall id e,
         map_get id store = Some e -> LINK_TTL < now - link_createdAt e ->
         map_get id (pruneLinks now store) = None))
  /\ (map_size (pruneCache now cache) <= MAX_CACHE
      /\ (forall key c,
            map_get key (pruneCache now cache) = Some c ->
            map_get key cache = Some c /\ now - cache_createdAt c <= CACHE_TTL)
      /\ (forall key c,
            map_get key cache = Some c -> CACHE_TTL < now - cache_createdAt c ->
            map_get key (pruneCache now cache) = None)).
Proof.
  intros Hs Hc. unfold pruneLinks, pruneCache. split; (split; [|split]).
  - now apply prune_size; [apply MAX_LINKS_nonneg|].
  - intros id e. now apply prune_get; [apply MAX_LINKS_nonneg|].
  - intros id e. now apply prune_expired_gone; [apply MAX_LINKS_nonneg|].
  - now apply prune_size; [apply MAX_CACHE_nonneg|].
  - intros key c. now apply prune_get; [apply MAX_CACHE_nonneg|].
  - intros key c. now apply prune_expired_gone; [apply MAX_CACHE_nonneg|].
Qed.

(** X6: capacity eviction removes from the front of the insertion order:
    the entries a sweep keeps are the unexpired ones without their oldest
    [size - MAX], so an unexpired entry is evicted only when at least
    [MAX] unexpired entries were inserted after it. *)
Theorem sweeps_drop_oldest now (store : LinkStore) (cache : VideoCache) :
  NoDup (map_keys store) -> NoDup (map_keys cache) ->
  (exists dropped,
     filter (alive link_createdAt LINK_TTL now) store
     = (dropped ++ pruneLinks now store)%list
     /\ Z.of_nat (List.length dropped)
        = Z.max 0 (map_size (filter (alive link_createdAt LINK_TTL now) store)
                   - MAX_LINKS))
  /\ (exists dropped,
        filter (alive cache_createdAt CACHE_TTL now) cache
        = (dropped ++ pruneCache now cache)%list
        /\ Z.of_nat (List.length dropped)
           = Z.max 0 (map_size (filter (alive cache_createdAt CACHE_TTL now) cache)
                      - MAX_CACHE)).
Proof.
  intros Hs Hc. split.
  - now apply prune_drops_prefix; [apply MAX_LINKS_nonneg|].
  - now apply prune_drops_prefix; [apply MAX_CACHE_nonneg|].
Qed.

Lemma sweeps_postcondition_witness :
  map_get "AAAAAA" (pruneLinks 3600001 aged_store) = None
  /\ map_size (pruneLinks 3600001 aged_store) <= MAX_LINKS.
Proof.
  destruct (@sweeps_postcondition 3600001 aged_store [])
    as [[Hsize [_ Hgone]] _].
  - apply (coded_NoDup (id_code 0)). vm_compute. reflexivity.
  - constructor.
  - split; [|exact Hsize].
    apply (Hgone "AAAAAA" (mkLinkEntry sample_link 0)).
    + reflexivity.
    + vm_compute. reflexivity.
Defined.

Lemma sweeps_drop_oldest_witness :
  exists dropped,
    filter (alive link_createdAt LINK_TTL 3600001) aged_store
    = (dropped ++ pruneLinks 3600001 aged_store)%list
    /\ Z.of_nat (List.length dropped)
       = Z.max 0 (map_size (filter (alive link_createdAt LINK_TTL 3600001)
                              aged_store)
                  - MAX_LINKS).
Proof.
  apply (@sweeps_drop_oldest 3600001 aged_store []).
  - apply (coded_NoDup (id_code 0)). vm_compute. reflexivity.
  - constructor.
Defined.

(** X7: on a registry with distinct keys, [storeLink] returns an
    identifier under which the new entry, stamped with the clock value read
    at insertion, is found at once; the keys stay distinct; the registry
    holds at most [MAX_LINKS + 1] entries; and every other entry found
    afterwards was there before, unchanged, and had not expired at the
    sweep. *)
Theorem storeLink_postcondition now_sweep now_set r data (store : LinkStore) :
  NoDup (map_keys store) ->
  let result := storeLink now_sweep now_set r data store in
  map_get (fst result) (snd result) = Some (mkLinkEntry data now_set)
  /\ NoDup (map_keys (snd result))
  /\ map_size (snd result) <= MAX_LINKS + 1
  /\ (forall id e,
        map_get id (snd result) = Some e -> id <> fst result ->
        map_get id store = Some e
        /\ now_sweep - link_createdAt e <= LINK_TTL).
Proof.
  intros Hnd. cbv zeta. split; [|split; [|split]].
  - unfold storeLink. cbn [fst snd]. apply map_get_set_same.
  - now apply storeLink_keys_NoDup.
  - now apply storeLink_size_bound.
  - unfold storeLink. cbn [fst snd]. intros id e Hget Hne.
    rewrite map_get_set_other in Hget by congruence.
    unfold pruneLinks in Hget.
    now apply (prune_get link_createdAt LINK_TTL now_sweep store id
                 MAX_LINKS_nonneg Hnd).
Qed.

Lemma storeLink_postcondition_witness :
  let result :=
    storeLink 3600001 3600002 (Rand4 x3a x07 xc4 x51) other_link aged_store in
  map_get (fst result) (snd result) = Some (mkLinkEntry other_link 3600002)
  /\ map_size (snd result) <= MAX_LINKS + 1.
Proof.
  cbv zeta.
  destruct (@storeLink_postcondition 3600001 3600002 (Rand4 x3a x07 xc4 x51)
              other_link aged_store)
    as [Hget [_ [Hsize _]]].
  - apply (coded_NoDup (id_code 0)). vm_compute. reflexivity.
  - split; assumption.
Defined.

(* ================================================================== *)
(** ** What the segments of the handlers do to the state *)

Lemma runs_done_inv (A : Type) (a : A) st st' : ~ runs (Done a) st st'.
Proof. intros H. inversion H. Qed.

Lemma runs_await_inv (A : Type) c
    (k : AxiosResult -> State -> State * task A) st st' :
  runs (Await c k) st st' ->
  (exists r, st' = fst (k r st))
  \/ (exists r st0, runs (snd (k r st0)) st st').
Proof.
  intros H. inversion H; subst; [left | right]; eauto.
Qed.

Lemma generate_store_state BASE_URL env tok video st :
  fst (generate_store BASE_URL env tok video st)
  = set_linkStore
      (snd (storeLink (links_now_sweep env) (links_now_set env)
              (random_bytes env)
              (mkLinkData (child_link video) tok
                 (or_default (child_thumbnail video) "")
                 (or_default (child_name video) "video.mp4") 1920 1080)
              (linkStore st)))
      st.
Proof.
  unfold generate_store, storeLink. cbn [snd].
  match goal with
  | |- context [prefetch ?a ?b ?u ?t ?s] =>
      pose proof (prefetch_first_segment a b u t s) as Hp;
      destruct (prefetch a b u t s) as [st1 warmup]
  end.
  cbn [fst] in *. exact Hp.
Qed.

Lemma prefetch_runs now_sweep now_set url tok st0 st st' :
  runs (snd (prefetch now_sweep now_set url tok st0)) st st' ->
  (exists resp, st' = prefetch_store now_sweep now_set (cacheKey url) resp st)
  \/ (exists line, st' = log_error line st).
Proof.
  unfold prefetch. destruct (map_has (cacheKey url) (videoCache st0)); cbn [snd].
  - intros H. now apply runs_done_inv in H.
  - intros H. apply runs_await_inv in H.
    destruct H as [[[resp | err] ->] | [[resp | err] [st1 H]]]; cbn [fst snd] in *.
    + left. eauto.
    + right. eauto.
    + now apply runs_done_inv in H.
    + now apply runs_done_inv in H.
Qed.

Lemma playback_runs hostname req st0 st st' :
  runs (snd (playback hostname req st0)) st st' ->
  st' = st \/ exists line, st' = log_error line st.
Proof.
  intros H.
  destruct (snd (playback hostname req st0)) as [res | e | cfg k] eqn:E.
  - now apply runs_done_inv in H.
  - inversion H.
  - apply playback_await_inv in E. destruct E as [-> _].
    apply runs_await_inv in H.
    destruct H as [[[up | err] ->] | [[up | err] [st1 H]]];
      cbn [stream_settled fst snd] in *.
    + now left.
    + right. eauto.
    + now apply runs_done_inv in H.
    + now apply runs_done_inv in H.
Qed.

Lemma generate_failed_state err st :
  fst (generate_failed err st) = log_error ("[generate] " ++ err_message err) st.
Proof. reflexivity. Qed.

Lemma generate_runs BASE_URL env url st0 st st' :
  runs (snd (generate BASE_URL env url st0)) st st' ->
  st' = st
  \/ (exists line, st' = log_error line st)
  \/ (exists tok video, st' = fst (generate_store BASE_URL env tok video st)).
Proof.
  unfold generate.
  destruct (search _ _) as [[contentId rest]|]; cbn [snd];
    [|intros H; now apply runs_done_inv in H].
  intros H. apply runs_await_inv in H.
  destruct H as [[acct ->] | [acct [st1 H]]].
  - (* the continuation of the accounts call *)
    destruct acct as [acct | err]; [|right; left; eexists; reflexivity].
    destruct (api_token (resp_json acct)) as [[|ch tok]|]; now left.
  - destruct acct as [acct | err];
      [|cbn [generate_failed snd] in H; now apply runs_done_inv in H].
    destruct (api_token (resp_json acct)) as [[|ch tok]|]; cbn [snd] in H;
      try (now apply runs_done_inv in H).
    apply runs_await_inv in H.
    destruct H as [[content ->] | [content [st2 H]]].
    + (* the continuation of the contents call *)
      destruct content as [content | err]; [|right; left; eexists; reflexivity].
      destruct (negb _); [now left|].
      destruct (api_children (resp_json content)) as [children|]; [|now left].
      destruct (find is_video children) as [video|]; [|now left].
      right; right. eauto.
    + exfalso.
      destruct content as [content | err];
        [|cbn [generate_failed snd] in H; now apply runs_done_inv in H].
      destruct (negb _); cbn [snd] in H; [now apply runs_done_inv in H|].
      destruct (api_children (resp_json content)) as [children|]; cbn [snd] in H;
        [|now apply runs_done_inv in H].
      destruct (find is_video children) as [video|]; cbn [snd] in H;
        [|now apply runs_done_inv in H].
      unfold generate_store in H.
      destruct (storeLink _ _ _ _ _) as [id links].
      destruct (prefetch _ _ _ _ _) as [st3 warmup]. cbn [snd] in H.
      now apply runs_done_inv in H.
Qed.

Lemma maps_bounded_log line st : maps_bounded st -> maps_bounded (log_error line st).
Proof. intros H. exact H. Qed.

Lemma maps_bounded_prefetch_store now_sweep now_set key resp st :
  maps_bounded st -> maps_bounded (prefetch_store now_sweep now_set key resp st).
Proof.
  intros [Hl [Hc [Hsl Hsc]]]. split; [|split; [|split]].
  - exact Hl.
  - unfold prefetch_store, set_videoCache. cbn [videoCache].
    apply map_set_keys_NoDup. unfold pruneCache.
    apply prune_keys_NoDup; [apply MAX_CACHE_nonneg | exact Hc].
  - exact Hsl.
  - now apply prefetch_store_size_bound.
Qed.

Lemma maps_bounded_generate_store BASE_URL env tok video st :
  maps_bounded st -> maps_bounded (fst (generate_store BASE_URL env tok video st)).
Proof.
  intros [Hl [Hc [Hsl Hsc]]]. rewrite generate_store_state.
  split; [|split; [|split]]; cbn [set_linkStore linkStore videoCache].
  - now apply storeLink_keys_NoDup.
  - exact Hc.
  - now apply storeLink_size_bound.
  - exact Hsc.
Qed.

Lemma generate_first_segment BASE_URL env url st :
  fst (generate BASE_URL env url st) = st.
Proof. unfold generate. now destruct (search _ _) as [[contentId rest]|]. Qed.

Lemma playback_first_segment hostname req st :
  fst (playback hostname req st) = st.
Proof.
  unfold playback.
  destruct (match query_id req with
            | Some id => map_get id (linkStore st)
            | None => None
            end) as [entry|]; [|reflexivity].
  destruct (negb _); [reflexivity|].
  destruct (match header_range req with
            | Some r => if str_truthy r then Some r else None
            | None => None
            end) as [r|].
  - destruct (parse_range r) as [rStart rEnd].
    destruct (map_get _ (videoCache st)) as [c|]; [|reflexivity].
    now destruct (serve_cached rStart rEnd c cors_response).
  - now destruct (map_get _ (videoCache st)).
Qed.

Lemma embed_state hostname embed_page env id st :
  fst (embed hostname embed_page env id st) = st.
Proof.
  unfold embed. destruct (map_get id (linkStore st)) as [entry|]; [|reflexivity].
  destruct (isGoFile hostname (videoUrl (link_data entry))); [|reflexivity].
  match goal with
  | |- context [prefetch ?a ?b ?u ?t ?s] =>
      pose proof (prefetch_first_segment a b u t s) as Hp;
      destruct (prefetch a b u t s) as [st1 warmup]
  end.
  exact Hp.
Qed.

(** X8: in every state of the server the registry and the cache have
    distinct keys, the registry holds at most [MAX_LINKS + 1] entries and
    the cache at most [MAX_CACHE + 1], whatever the requests, the answers
    of the origin and the interleaving of the pending calls. *)
Theorem reachable_maps_bounded hostname BASE_URL st :
  reachable hostname BASE_URL st -> maps_bounded st.
Proof.
  induction 1 as
    [ | env url st _ IH | env url st0 st st' _ IH Hrun
      | page env id st _ IH | req st _ IH | req st0 st st' _ IH Hrun
      | a b url tok st _ IH | a b url tok st0 st st' _ IH Hrun ].
  - repeat split; try constructor; cbn; unfold MAX_LINKS, MAX_CACHE; lia.
  - now rewrite generate_first_segment.
  - apply generate_runs in Hrun.
    destruct Hrun as [-> | [[line ->] | [tok [video ->]]]].
    + exact IH.
    + exact IH.
    + now apply maps_bounded_generate_store.
  - now rewrite embed_state.
  - now rewrite playback_first_segment.
  - apply playback_runs in Hrun. destruct Hrun as [-> | [line ->]]; exact IH.
  - now rewrite prefetch_first_segment.
  - apply prefetch_runs in Hrun. destruct Hrun as [[resp ->] | [line ->]].
    + now apply maps_bounded_prefetch_store.
    + exact IH.
Qed.

Lemma reachable_maps_bounded_witness :
  maps_bounded
    (prefetch_settled 0 0 (videoUrl sample_link) (token sample_link)
       (Fulfilled sample_chunk) empty_state).
Proof.
  apply (@reachable_maps_bounded https_hostname "http://localhost:3000").
  apply (@reach_prefetch_resumed https_hostname "http://localhost:3000"
           0 0 (videoUrl sample_link) (token sample_link)
           empty_state empty_state).
  - apply reach_start.
  - exact (runs_resume _ _ (Fulfilled sample_chunk) empty_state).
Defined.

(** X9: the streaming route only reads the registry and the cache: its
    first segment returns the state it was given, and the continuation of
    its origin call, in whatever state it resumes, leaves both maps as they
    are (it can only write a console line). *)
Theorem playback_leaves_maps hostname req st :
  fst (playback hostname req st) = st
  /\ (forall st1 st',
        runs (snd (playback hostname req st)) st1 st' ->
        linkStore st' = linkStore st1 /\ videoCache st' = videoCache st1).
Proof.
  split; [apply playback_first_segment|].
  intros st1 st' H. apply playback_runs in H.
  destruct H as [-> | [line ->]]; split; reflexivity.
Qed.

Lemma playback_leaves_maps_witness :
  videoCache
    (fst (stream_settled cors_response
            (Rejected (mkError "socket hang up" None None)) warmed_state))
  = videoCache warmed_state.
Proof.
  apply (proj2 (playback_leaves_maps https_hostname
                  (mkRequest (Some sample_id) None) warmed_state)
           warmed_state).
  exact (runs_resume _ _ (Rejected (mkError "socket hang up" None None))
           warmed_state).
Defined.

(** X10: link creation never writes to the cache, and writes to the
    registry only through the one [storeLink] of its success path: each of
    its segments leaves the state as it is, or adds a console line, or
    replaces the registry by the result of [storeLink] for the first video
    of the listing. *)
Theorem generate_effects BASE_URL env url st :
  fst (generate BASE_URL env url st) = st
  /\ (forall st1 st',
        runs (snd (generate BASE_URL env url st)) st1 st' ->
        videoCache st' = videoCache st1
        /\ (linkStore st' = linkStore st1
            \/ exists data,
                 linkStore st'
                 = snd (storeLink (links_now_sweep env) (links_now_set env)
                          (random_bytes env) data (linkStore st1)))).
Proof.
  split; [apply generate_first_segment|].
  intros st1 st' H. apply generate_runs in H.
  destruct H as [-> | [[line ->] | [tok [video ->]]]].
  - split; [reflexivity | now left].
  - split; [reflexivity | now left].
  - rewrite generate_store_state. split; [reflexivity|].
    right. eexists. reflexivity.
Qed.

(** X11: the embed page route answers an unknown identifier with 404 and
    [Link expired or not found.]; for a known one it answers 200 with the
    page of that entry; it starts a warm-up exactly when the entry's URL
    passes [isGoFile], and that warm-up is [prefetch] on the entry's URL
    and token; in every case it returns the state it was given. *)
Theorem embed_behaviour hostname embed_page env id st :
  fst (embed hostname embed_page env id st) = st
  /\ match map_get id (linkStore st) with
     | None =>
         snd (embed hostname embed_page env id st)
         = mkHandled (mkHttp 404 [] (Text "Link expired or not found.")) None
     | Some entry =>
         response (snd (embed hostname embed_page env id st))
         = mkHttp 200 [] (Text (embed_page id entry))
         /\ spawned (snd (embed hostname embed_page env id st))
            = if isGoFile hostname (videoUrl (link_data entry))
              then Some (snd (prefetch (cache_now_sweep env) (cache_now_set env)
                                (videoUrl (link_data entry))
                                (token (link_data entry)) st))
              else None
     end.
Proof.
  split; [apply embed_state|].
  unfold embed. destruct (map_get id (linkStore st)) as [entry|]; [|reflexivity].
  destruct (isGoFile hostname (videoUrl (link_data entry))); [|split; reflexivity].
  destruct (prefetch _ _ _ _ _) as [st1 warmup]. split; reflexivity.
Qed.

(* ================================================================== *)
(** ** The streaming route: paths and headers *)

(** X12: without a [Range] header, or with an empty one, the route never
    answers from the cache, whatever the cache holds: for a link that
    resolves to a trusted URL it opens the live stream, and the call
    carries no [Range] header. *)
Theorem playback_without_range_streams_live hostname st id entry range :
  map_get id (linkStore st) = Some entry ->
  isGoFile hostname (videoUrl (link_data entry)) = true ->
  range = None \/ range = Some EmptyString ->
  playback hostname (mkRequest (Some id) range) st
  = (st,
     Await (stream_config (videoUrl (link_data entry))
              (token (link_data entry)) range)
       (stream_settled cors_response))
  /\ map_get "Range"
       (cfg_headers (stream_config (videoUrl (link_data entry))
                       (token (link_data entry)) range))
     = None.
Proof.
  intros Hlink Htrust Hrange. split.
  - unfold playback. cbn [query_id header_range]. rewrite Hlink, Htrust.
    cbn [negb].
    destruct Hrange as [-> | ->]; cbn [str_truthy];
      now destruct (map_get _ (videoCache st)).
  - unfold stream_config. cbn [cfg_headers].
    destruct Hrange as [-> | ->]; cbn [str_truthy];
      destruct (str_truthy (token (link_data entry))); reflexivity.
Qed.

Lemma playback_without_range_streams_live_witness :
  playback https_hostname (mkRequest (Some sample_id) None) warmed_state
  = (warmed_state,
     Await (stream_config (videoUrl sample_link) (token sample_link) None)
       (stream_settled cors_response)).
Proof.
  apply (@playback_without_range_streams_live https_hostname warmed_state
           sample_id (mkLinkEntry sample_link 0) None).
  - reflexivity.
  - reflexivity.
  - now left.
Defined.

Lemma cors_kept name value h :
  cors_present h ->
  String.eqb name "Access-Control-Allow-Origin" = false ->
  String.eqb name "Access-Control-Allow-Methods" = false ->
  String.eqb name "Access-Control-Allow-Headers" = false ->
  String.eqb name "Access-Control-Expose-Headers" = false ->
  cors_present (map_set name value h).
Proof.
  intros [H1 [H2 [H3 H4]]] E1 E2 E3 E4.
  apply String.eqb_neq in E1, E2, E3, E4.
  unfold cors_present. now rewrite !map_get_set_other by assumption.
Qed.

Lemma cors_response_present : cors_present (headers cors_response).
Proof. repeat split. Qed.

Lemma serve_cached_cors rStart rEnd c res answer :
  cors_present (headers res) ->
  serve_cached rStart rEnd c res = Some answer ->
  cors_present (headers answer).
Proof.
  intros Hc. unfold serve_cached.
  destruct (_ && _)%bool; [|discriminate].
  intros [= <-]. cbn [send set_status headers].
  destruct (total_truthy (totalSize c)); cbn [setHeader headers];
    repeat (apply cors_kept; [|reflexivity ..]); exact Hc.
Qed.

Lemma mirror_cors upstream res :
  cors_present (headers res) -> cors_present (headers (mirror upstream res)).
Proof.
  intros Hc. unfold mirror, mirrored_headers. cbn [fold_left].
  repeat match goal with
         | |- context [map_get ?h (resp_headers upstream)] =>
             destruct (map_get h (resp_headers upstream)) as [?v|]
         | |- context [str_truthy ?v] => destruct (str_truthy v)
         end;
    cbn [setHeader headers];
    repeat (apply cors_kept; [|reflexivity ..]); exact Hc.
Qed.

(** X13: every response of the [/v] routes carries the four cross-origin
    headers the middleware sets: the 204 answer to [OPTIONS], which has no
    body, and every answer of the streaming route, be it 404, 403, the
    slice from the cache, the mirrored origin response or the proxy
    error. *)
Theorem v_responses_carry_cors hostname req st :
  (forall method res,
     v_middleware method = inl res ->
     method = "OPTIONS" /\ status res = 204 /\ body res = NoBody
     /\ cors_present (headers res))
  /\ (forall res,
        ends_with (snd (playback hostname req st)) res ->
        cors_present (headers res)).
Proof.
  split.
  - intros method res. unfold v_middleware.
    destruct (String.eqb method "OPTIONS") eqn:E; [|discriminate].
    intros [= <-]. apply String.eqb_eq in E. repeat split; assumption.
  - intros res H. unfold playback in H.
    destruct (match query_id req with
              | Some id => map_get id (linkStore st)
              | None => None
              end) as [entry|];
      [|cbn [snd] in H; inversion H; subst; apply cors_response_present].
    destruct (negb _);
      [cbn [snd] in H; inversion H; subst; apply cors_response_present|].
    assert (Hlive : forall cfg,
              ends_with (Await cfg (stream_settled cors_response)) res ->
              cors_present (headers res)).
    { intros cfg Hl. inversion Hl as [|c k r st1 a Hk]; subst.
      destruct r as [up | err]; cbn [stream_settled snd] in Hk;
        inversion Hk; subst; cbn [send set_status headers].
      - cbn [setHeader headers]. apply cors_kept; [|reflexivity ..].
        apply mirror_cors, cors_response_present.
      - apply cors_response_present. }
    destruct (match header_range req with
              | Some r => if str_truthy r then Some r else None
              | None => None
              end) as [r|].
    + destruct (parse_range r) as [rStart rEnd].
      destruct (map_get _ (videoCache st)) as [c|];
        [|cbn [snd] in H; now apply Hlive in H].
      destruct (serve_cached rStart rEnd c cors_response) as [answer|] eqn:E;
        cbn [snd] in H; [|now apply Hlive in H].
      inversion H; subst.
      now apply (@serve_cached_cors rStart rEnd c cors_response res
                   cors_response_present E).
    + destruct (map_get _ (videoCache st)); cbn [snd] in H; now apply Hlive in H.
Qed.

(** X14: when the origin answers the live call, the route's answer has the
    origin's status, pipes the origin's body, is marked
    [Content-Disposition: inline], and carries each of [content-type],
    [content-length], [content-range] and [accept-ranges] with the origin's
    value when the origin sent a non-empty one and not at all otherwise;
    the state is left as it is. *)
Theorem live_answer_mirrors_origin hostname req st0 cfg k upstream st :
  snd (playback hostname req st0) = Await cfg k ->
  exists res,
    k (Fulfilled upstream) st = (st, Done res)
    /\ status res = resp_status upstream
    /\ body res = Piped (resp_data upstream)
    /\ map_get "Content-Disposition" (headers res) = Some "inline"
    /\ (forall h, In h mirrored_headers ->
          map_get h (headers res)
          = match map_get h (resp_headers upstream) with
            | Some v => if str_truthy v then Some v else None
            | None => None
            end).
Proof.
  intros H. apply playback_await_inv in H. destruct H as [-> _].
  eexists. split; [reflexivity|]. cbn [send set_status status body headers].
  split; [reflexivity|]. split; [reflexivity|].
  unfold mirror, mirrored_headers. cbn [fold_left]. split.
  - destruct (map_get "content-type" (resp_headers upstream)) as [v1|];
      [destruct (str_truthy v1)|];
      (destruct (map_get "content-length" (resp_headers upstream)) as [v2|];
       [destruct (str_truthy v2)|]);
      (destruct (map_get "content-range" (resp_headers upstream)) as [v3|];
       [destruct (str_truthy v3)|]);
      (destruct (map_get "accept-ranges" (resp_headers upstream)) as [v4|];
       [destruct (str_truthy v4)|]);
      reflexivity.
  - intros h [<- | [<- | [<- | [<- | []]]]];
      (destruct (map_get "content-type" (resp_headers upstream)) as [v1|];
       [destruct (str_truthy v1)|]);
      (destruct (map_get "content-length" (resp_headers upstream)) as [v2|];
       [destruct (str_truthy v2)|]);
      (destruct (map_get "content-range" (resp_headers upstream)) as [v3|];
       [destruct (str_truthy v3)|]);
      (destruct (map_get "accept-ranges" (resp_headers upstream)) as [v4|];
       [destruct (str_truthy v4)|]);
      reflexivity.
Qed.

Lemma live_answer_mirrors_origin_witness :
  exists res,
    stream_settled cors_response (Fulfilled sample_chunk) linked_state
    = (linked_state, Done res)
    /\ status res = 206
    /\ body res = Piped [x00; x00; x00; x18]
    /\ map_get "content-range" (headers res) = Some "bytes 0-3/4"
    /\ map_get "content-length" (headers res) = None.
Proof.
  destruct (@live_answer_mirrors_origin https_hostname
              (mkRequest (Some sample_id) (Some "bytes=0-3")) linked_state
              (stream_config (videoUrl sample_link) (token sample_link)
                 (Some "bytes=0-3"))
              (stream_settled cors_response) sample_chunk linked_state eq_refl)
    as [res [Hk [Hst [Hbody [_ Hmirror]]]]].
  exists res. split; [exact Hk|]. split; [exact Hst|]. split; [exact Hbody|].
  split.
  - apply (Hmirror "content-range"). simpl. tauto.
  - apply (Hmirror "content-length"). simpl. tauto.
Defined.

(* ================================================================== *)
(** ** The range parser *)







Lemma split_parts_no_separator sep s :
  Forall (fun p => string_forall (fun c => negb (Ascii.eqb c sep)) p = true)
         (split sep s).
Proof.
  induction s as [|c s IH]; simpl.
  - repeat constructor.
  - destruct (Ascii.eqb c sep) eqn:E.
    + constructor; [reflexivity | exact IH].
    + destruct (split sep s) as [|hd tl].
      * repeat constructor. simpl. now rewrite E.
      * inversion IH as [|? ? Hhd Htl]; subst.
        constructor; [|exact Htl]. simpl. now rewrite E, Hhd.
Qed.

Lemma span_snd_forall p q s :
  string_forall p s = true -> string_forall p (snd (span q s)) = true.
Proof.
  induction s as [|c s IH]; simpl; [reflexivity|].
  intros H. destruct (q c).
  - apply andb_true_iff in H. destruct H as [_ Hs].
    specialize (IH Hs). now destruct (span q s).
  - exact H.
Qed.

Lemma span_fst_forall p s : string_forall p (fst (span p s)) = true.
Proof.
  induction s as [|c s IH]; simpl; [reflexivity|].
  destruct (p c) eqn:E; [|reflexivity].
  destruct (span p s) as [a b]. simpl in *. now rewrite E, IH.
Qed.

Lemma digit_val_nonneg c : is_digit c = true -> 0 <= digit_val c.
Proof.
  unfold is_digit, in_range, digit_val. intros H.
  apply andb_true_iff in H. destruct H as [H _].
  apply N.leb_le in H. change (N_of_ascii "0") with 48%N in H. lia.
Qed.

Lemma digits_value_nonneg s : forall acc,
  string_forall is_digit s = true -> 0 <= acc -> 0 <= digits_value acc s.
Proof.
  induction s as [|c s IH]; intros acc H Hacc; cbn [digits_value];
    [exact Hacc|].
  cbn [string_forall] in H. apply andb_true_iff in H. destruct H as [Hc Hs].
  apply IH; [exact Hs|]. pose proof (digit_val_nonneg c Hc). lia.
Qed.

Lemma parseInt_no_dash_nonneg s z :
  string_forall (fun c => negb (Ascii.eqb c "-")) s = true ->
  parseInt s = Num z -> 0 <= z.
Proof.
  intros Hs. unfold parseInt.
  pose proof (span_snd_forall _ is_js_space s Hs) as Ht.
  destruct (snd (span is_js_space s)) as [|c t].
  - simpl. discriminate.
  - simpl in Ht. apply andb_true_iff in Ht. destruct Ht as [Hc _].
    assert (Hsign :
      exists u,
        match String c t with
        | String "-" r => (-1, r)
        | String "+" r => (1, r)
        | _ => (1, String c t)
        end = (1, u)).
    { destruct c as [[] [] [] [] [] [] [] []];
        try (eexists; reflexivity); discriminate Hc. }
    destruct Hsign as [u ->].
    pose proof (span_fst_forall is_digit u) as Hd.
    destruct (fst (span is_digit u)) as [|d ds] eqn:E; [discriminate|].
    intros Hz.
    assert (Hval : z = 1 * digits_value 0 (String d ds)) by congruence.
    pose proof (@digits_value_nonneg (String d ds) 0 Hd (Z.le_refl 0)). lia.
Qed.

Lemma parse_range_nonneg hdr :
  0 <= fst (parse_range hdr)
  /\ (forall z, snd (parse_range hdr) = Some (Num z) -> 0 <= z).
Proof.
  unfold parse_range. cbn [fst snd].
  pose proof (split_parts_no_separator "-" (remove_first "bytes=" hdr)) as Hparts.
  destruct (split "-" (remove_first "bytes=" hdr)) as [|p0 tl].
  - cbn [nth nth_error]. split; [|discriminate].
    unfold or_zero. now destruct (num_truthy (parseInt EmptyString)).
  - inversion Hparts as [|? ? H0 Htl]; subst. cbn [nth nth_error]. split.
    + unfold or_zero. destruct (parseInt p0) as [|z] eqn:E.
      * now destruct (num_truthy NaN).
      * destruct (num_truthy (Num z)); [|lia].
        now apply (parseInt_no_dash_nonneg p0).
    + destruct tl as [|p1 tl']; [discriminate|].
      inversion Htl as [|? ? H1 _]; subst. cbn [nth_error].
      destruct (str_truthy p1); [|discriminate].
      intros z [= E]. now apply (parseInt_no_dash_nonneg p1).
Qed.

Lemma parse_range_start_nonneg hdr : 0 <= fst (parse_range hdr).
Proof. apply parse_range_nonneg. Qed.

Lemma parse_range_end_nonneg hdr z :
  snd (parse_range hdr) = Some (Num z) -> 0 <= z.
Proof. apply parse_range_nonneg. Qed.

(** X16: the parser never yields a negative number: the start is at least
    [0], and an end that is a number is at least [0].  (The dashes are
    consumed by [split], so no part can carry a minus sign.) *)
Theorem parse_range_never_negative hdr :
  0 <= fst (parse_range hdr)
  /\ (forall z, snd (parse_range hdr) = Some (Num z) -> 0 <= z).
Proof.
  split.
  - apply parse_range_start_nonneg.
  - intros z H. now apply (parse_range_end_nonneg hdr).
Qed.

(** X17: whenever the route takes an answer from the cache for a [Range]
    header, the start and the effective end are indices of the cached
    buffer, the effective end is a number, and the body is the run of
    bytes from the start to the effective end: the negative-index and
    clamping cases of [subarray] are never reached. *)
Theorem cache_answer_is_in_bounds hdr c res answer :
  serve_cached (fst (parse_range hdr)) (snd (parse_range hdr)) c res
  = Some answer ->
  exists stop,
    effective_end (snd (parse_range hdr)) c = Num stop
    /\ 0 <= fst (parse_range hdr) < buffer_length (buffer c)
    /\ 0 <= stop < buffer_length (buffer c)
    /\ status answer = 206
    /\ body answer
       = Binary (firstn (Z.to_nat (stop + 1 - fst (parse_range hdr)))
                   (skipn (Z.to_nat (fst (parse_range hdr))) (buffer c))).
Proof.
  destruct (parse_range_nonneg hdr) as [Hstart Hend].
  destruct (parse_range hdr) as [rStart rEnd]. cbn [fst snd] in *.
  unfold serve_cached.
  destruct (rStart <? buffer_length (buffer c)) eqn:E1; [|discriminate].
  destruct (effective_end rEnd c) as [|stop] eqn:E2; [discriminate|].
  cbn [andb num_lt].
  destruct (stop <? buffer_length (buffer c)) eqn:E3; [|discriminate].
  apply Z.ltb_lt in E1, E3. intros [= <-].
  assert (Hstop : 0 <= stop).
  { destruct rEnd as [e|]; cbn [effective_end] in E2.
    - subst e. now apply Hend.
    - injection E2 as <-. lia. }
  exists stop. split; [reflexivity|]. split; [lia|]. split; [lia|].
  split; [now destruct (total_truthy (totalSize c))|].
  destruct (total_truthy (totalSize c)); cbn [send body];
    change (Num (stop + 1)) with (num_add (Num stop) 1);
    now rewrite subarray_inside by lia.
Qed.

Lemma cache_answer_is_in_bounds_witness :
  exists stop,
    effective_end (snd (parse_range "bytes=1-")) sample_entry = Num stop
    /\ 0 <= stop < buffer_length (buffer sample_entry).
Proof.
  destruct (serve_cached (fst (parse_range "bytes=1-"))
              (snd (parse_range "bytes=1-")) sample_entry fresh_response)
    as [answer|] eqn:E; [|discriminate E].
  destruct (@cache_answer_is_in_bounds "bytes=1-" sample_entry fresh_response
              answer E)
    as [stop [Hend [_ [Hstop _]]]].
  exists stop. split; assumption.
Defined.

(* ================================================================== *)
(** ** Warm-up: what is stored *)








(** X19: the presence check of the warm-up does not serialise two
    warm-ups of one resource.  When both start before either has stored
    its entry, both issue the call; after both have completed the cache
    holds one entry under the key, with distinct keys as before, and it is
    the entry of the call that completed last. *)
Theorem duplicate_warmups_overwrite
    now_sweep now_set now_sweep' now_set' url tok st first second :
  NoDup (map_keys (videoCache st)) ->
  map_has (cacheKey url) (videoCache st) = false ->
  exists k1 k2,
    prefetch now_sweep now_set url tok st
    = (st, Await (prefetch_config url tok) k1)
    /\ prefetch now_sweep' now_set' url tok st
       = (st, Await (prefetch_config url tok) k2)
    /\ let st1 := fst (k1 (Fulfilled first) st) in
       let st2 := fst (k2 (Fulfilled second) st1) in
       NoDup (map_keys (videoCache st2))
       /\ exists c,
            map_get (cacheKey url) (videoCache st2) = Some c
            /\ buffer c = resp_data second
            /\ cache_createdAt c = now_set'.
Proof.
  intros Hnd Hcold. unfold prefetch. rewrite Hcold.
  eexists. eexists. split; [reflexivity|]. split; [reflexivity|].
  cbv zeta. cbn [fst]. split.
  - unfold prefetch_store at 1. unfold set_videoCache. cbn [videoCache].
    apply map_set_keys_NoDup. unfold pruneCache.
    apply prune_keys_NoDup; [apply MAX_CACHE_nonneg|].
    unfold prefetch_store, set_videoCache. cbn [videoCache].
    apply map_set_keys_NoDup. unfold pruneCache.
    apply prune_keys_NoDup; [apply MAX_CACHE_nonneg | exact Hnd].
  - apply prefetch_store_get.
Qed.

Lemma duplicate_warmups_overwrite_witness :
  exists k1 k2,
    prefetch 0 0 (videoUrl sample_link) (token sample_link) linked_state
    = (linked_state,
       Await (prefetch_config (videoUrl sample_link) (token sample_link)) k1)
    /\ prefetch 5 5 (videoUrl sample_link) (token sample_link) linked_state
       = (linked_state,
          Await (prefetch_config (videoUrl sample_link) (token sample_link)) k2)
    /\ let st1 := fst (k1 (Fulfilled sample_chunk) linked_state) in
       let st2 := fst (k2 (Fulfilled zero_total_chunk) st1) in
       NoDup (map_keys (videoCache st2))
       /\ exists c,
            map_get (cacheKey (videoUrl sample_link)) (videoCache st2) = Some c
            /\ buffer c = resp_data zero_total_chunk
            /\ cache_createdAt c = 5.
Proof.
  apply (@duplicate_warmups_overwrite 0 0 5 5 (videoUrl sample_link)
           (token sample_link) linked_state sample_chunk zero_total_chunk).
  - constructor.
  - reflexivity.
Defined.

(* ================================================================== *)
(** ** The cache key *)

Lemma search_some (A : Type) (at_pos : string -> option A) s a :
  search at_pos s = Some a -> exists t, at_pos t = Some a.
Proof.
  induction s as [|c s IH]; cbn [search].
  - destruct (at_pos EmptyString) eqn:E; [|discriminate].
    intros [= <-]. eauto.
  - destruct (at_pos (String c s)) eqn:E.
    + intros [= <-]. eauto.
    + exact IH.
Qed.

Lemma lit_then_run_shape lit cls s run rest :
  lit_then_run lit cls s = Some (run, rest) ->
  run <> EmptyString /\ string_forall cls run = true.
Proof.
  unfold lit_then_run. destruct (strip_prefix lit s) as [r|]; [|discriminate].
  pose proof (span_fst_forall cls r) as Hall.
  destruct (span cls r) as [a b]. cbn [fst] in Hall.
  destruct a as [|c a]; [discriminate|].
  intros [= <- <-]. split; [discriminate | exact Hall].
Qed.

Lemma download_id_at_shape t id :
  download_id_at t = Some id ->
  id <> EmptyString /\ string_forall is_hex_dash id = true.
Proof.
  unfold download_id_at.
  destruct (lit_then_run "/download/web/" is_hex_dash t) as [[run rest]|] eqn:E;
    [|discriminate].
  apply lit_then_run_shape in E.
  destruct rest as [|c rest]; [discriminate|].
  destruct c as [[] [] [] [] [] [] [] []]; try discriminate.
  now intros [= <-].
Qed.

Lemma download_id_at_other c r :
  negb (Ascii.eqb c "/") = true -> download_id_at (String c r) = None.
Proof.
  intros H. apply negb_true_iff in H. rewrite Ascii.eqb_sym in H.
  unfold download_id_at, lit_then_run. cbn [strip_prefix]. now rewrite H.
Qed.

Lemma search_download_skip s t :
  string_forall (fun c => negb (Ascii.eqb c "/")) s = true ->
  search download_id_at (s ++ t) = search download_id_at t.
Proof.
  induction s as [|c s IH]; [reflexivity|].
  intros H. cbn [string_forall] in H. apply andb_true_iff in H.
  destruct H as [Hc Hs].
  change (String c s ++ t)%string with (String c (s ++ t)).
  cbn [search]. rewrite download_id_at_other by assumption. now apply IH.
Qed.

Lemma search_download_none s :
  string_forall (fun c => negb (Ascii.eqb c "/")) s = true ->
  search download_id_at s = None.
Proof.
  induction s as [|c s IH]; [reflexivity|].
  intros H. cbn [string_forall] in H. apply andb_true_iff in H.
  destruct H as [Hc Hs].
  cbn [search]. rewrite download_id_at_other by assumption. now apply IH.
Qed.

Lemma hex_dash_not_slash c :
  is_hex_dash c = true -> negb (Ascii.eqb c "/") = true.
Proof.
  destruct c as [[] [] [] [] [] [] [] []]; vm_compute; congruence.
Qed.

(** X20: the key is either the URL itself or a non-empty run of the
    characters [a-f], [0-9] and [-]; and deriving the key of a key changes
    nothing. *)
Theorem cacheKey_shape_idempotent url :
  (cacheKey url = url
   \/ (cacheKey url <> EmptyString
       /\ string_forall is_hex_dash (cacheKey url) = true))
  /\ cacheKey (cacheKey url) = cacheKey url.
Proof.
  destruct (search download_id_at url) as [id|] eqn:E.
  - assert (Hkey : cacheKey url = id) by (unfold cacheKey; now rewrite E).
    rewrite Hkey.
    apply search_some in E. destruct E as [t E].
    apply download_id_at_shape in E. destruct E as [Hne Hall].
    split; [right; now split|].
    unfold cacheKey. rewrite search_download_none; [reflexivity|].
    apply string_forall_impl with (p := is_hex_dash);
      [apply hex_dash_not_slash | exact Hall].
  - assert (Hkey : cacheKey url = url) by (unfold cacheKey; now rewrite E).
    rewrite Hkey. split; [now left | exact Hkey].
Qed.

Lemma span_app_stop p s c t :
  string_forall p s = true -> p c = false ->
  span p (s ++ String c t) = (s, String c t).
Proof.
  intros Hs Hc. induction s as [|a s IH]; simpl.
  - now rewrite Hc.
  - simpl in Hs. apply andb_true_iff in Hs. destruct Hs as [Ha Hs].
    now rewrite Ha, IH.
Qed.

Lemma strip_prefix_cons a p b s :
  strip_prefix (String a p) (String b s)
  = if Ascii.eqb a b then strip_prefix p s else None.
Proof. reflexivity. Qed.

(** A host name without a slash cannot complete the literal
    [/download/web/] before the path starts: whatever part of
    [download/web/] is still to be matched, the match fails. *)
Lemma host_completes_no_literal host rest :
  string_forall (fun c => negb (Ascii.eqb c "/")) host = true ->
  forall q,
    In q ["download/web/"; "ownload/web/"; "wnload/web/"; "nload/web/";
          "load/web/"; "oad/web/"; "ad/web/"; "d/web/"; "/web/"] ->
    strip_prefix q (host ++ "/download/web/" ++ rest) = None.
Proof.
  induction host as [|c host IH]; intros Hhost q Hq.
  - cbn [In] in Hq.
    repeat (destruct Hq as [<- | Hq]; [reflexivity|]). destruct Hq.
  - cbn [string_forall] in Hhost. apply andb_true_iff in Hhost.
    destruct Hhost as [Hc Hhost]. specialize (IH Hhost).
    apply negb_true_iff in Hc. rewrite Ascii.eqb_sym in Hc.
    change (String c host ++ "/download/web/" ++ rest)%string
      with (String c (host ++ "/download/web/" ++ rest)).
    cbn [In] in Hq.
    repeat (destruct Hq as [<- | Hq];
            [rewrite strip_prefix_cons;
             match goal with
             | |- (if Ascii.eqb ?a c then _ else _) = None =>
                 destruct (Ascii.eqb a c) eqn:E;
                 [first [ congruence | apply IH; cbn [In]; auto 20 ]
                 | reflexivity]
             end|]).
    destruct Hq.
Qed.

(** X21: for a download URL of the usual form, [https://host/download/web/
    id/...] with [id] a non-empty run of [a-f], [0-9] and [-], the key is
    [id]: it depends neither on the host nor on what follows the
    identifier, so the same file reached through two store hosts or under
    two file names shares one cache entry. *)
Theorem cacheKey_of_download_url host id rest :
  string_forall (fun c => negb (Ascii.eqb c "/")) host = true ->
  id <> EmptyString ->
  string_forall is_hex_dash id = true ->
  cacheKey ("https://" ++ host ++ "/download/web/" ++ id ++ "/" ++ rest) = id.
Proof.
  intros Hhost Hne Hid. unfold cacheKey.
  assert (Hsearch :
    search download_id_at
      ("https://" ++ host ++ "/download/web/" ++ id ++ "/" ++ rest)
    = Some id).
  { change ("https://" ++ host ++ "/download/web/" ++ id ++ "/" ++ rest)%string
      with ("https:" ++ String "/" (String "/"
              (host ++ "/download/web/" ++ id ++ "/" ++ rest)))%string.
    rewrite (search_download_skip "https:") by reflexivity.
    cbn [search].
    assert (E1 : download_id_at
                   (String "/" (String "/"
                      (host ++ "/download/web/" ++ id ++ "/" ++ rest)))
                 = None) by reflexivity.
    rewrite E1.
    assert (E2 : download_id_at
                   (String "/" (host ++ "/download/web/" ++ id ++ "/" ++ rest))
                 = None).
    { unfold download_id_at, lit_then_run.
      rewrite strip_prefix_cons, Ascii.eqb_refl.
      rewrite (@host_completes_no_literal host (id ++ "/" ++ rest) Hhost
                 "download/web/"); [reflexivity|].
      cbn [In]. auto. }
    rewrite E2.
    rewrite search_download_skip by assumption.
    change ("/download/web/" ++ id ++ "/" ++ rest)%string
      with (String "/" ("download/web/" ++ id ++ String "/" rest))%string.
    cbn [search]. unfold download_id_at, lit_then_run.
    change (strip_prefix "/download/web/"
              (String "/" ("download/web/" ++ id ++ String "/" rest)))
      with (Some (id ++ String "/" rest)%string).
    cbv beta iota.
    rewrite span_app_stop by (assumption || reflexivity).
    destruct id as [|c id']; [congruence | reflexivity]. }
  now rewrite Hsearch.
Qed.

Lemma cacheKey_of_download_url_witness :
  cacheKey ("https://" ++ "store1.gofile.io" ++ "/download/web/"
              ++ "0a1b2c3d-4e5f" ++ "/" ++ "clip.mp4")
  = "0a1b2c3d-4e5f".
Proof.
  apply (@cacheKey_of_download_url "store1.gofile.io" "0a1b2c3d-4e5f" "clip.mp4").
  - reflexivity.
  - discriminate.
  - reflexivity.
Defined.

(* ================================================================== *)
(** ** The trusted-origin check *)

Lemma string_length_app s t :
  String.length (s ++ t) = (String.length s + String.length t)%nat.
Proof. induction s as [|c s IH]; simpl; [reflexivity | now rewrite IH]. Qed.

Lemma substring_whole s : String.substring 0 (String.length s) s = s.
Proof. induction s as [|c s IH]; simpl; [reflexivity | now rewrite IH]. Qed.

Lemma substring_skip p s n :
  String.substring (String.length p) n (p ++ s) = String.substring 0 n s.
Proof. induction p as [|c p IH]; simpl; [reflexivity | exact IH]. Qed.

Lemma substring_split s : forall a,
  (a <= String.length s)%nat ->
  s = (String.substring 0 a s
         ++ String.substring a (String.length s - a) s)%string.
Proof.
  induction s as [|c s IH]; intros a Ha.
  - destruct a; reflexivity.
  - destruct a as [|a].
    + cbn [String.substring String.append]. simpl String.length.
      rewrite Nat.sub_0_r.
      change (String.substring 0 (S (String.length s)) (String c s))
        with (String c (String.substring 0 (String.length s) s)).
      now rewrite substring_whole.
    + simpl in Ha. simpl. f_equal. apply IH. lia.
Qed.

Lemma endsWith_iff s suffix :
  endsWith s suffix = true <-> exists p, s = (p ++ suffix)%string.
Proof.
  unfold endsWith. split.
  - destruct (Nat.leb_spec (String.length suffix) (String.length s)) as [Hle|];
      [|discriminate].
    intros H. apply String.eqb_eq in H.
    exists (String.substring 0 (String.length s - String.length suffix) s).
    pose proof (@substring_split s
                  (String.length s - String.length suffix)%nat) as Hsplit.
    replace (String.length s - (String.length s - String.length suffix))%nat
      with (String.length suffix) in Hsplit by lia.
    rewrite H in Hsplit. apply Hsplit. lia.
  - intros [p ->]. rewrite string_length_app.
    assert (E : Nat.leb (String.length suffix)
                  (String.length p + String.length suffix) = true)
      by (apply Nat.leb_le; lia).
    rewrite E.
    replace (String.length p + String.length suffix - String.length suffix)%nat
      with (String.length p) by lia.
    rewrite substring_skip, substring_whole. apply String.eqb_refl.
Qed.

(** X22: a URL passes the trusted-origin check exactly when it parses and
    its host name is some text followed by [.gofile.io]; the bare host
    [gofile.io] does not pass, and a URL that does not parse does not
    pass. *)
Theorem isGoFile_iff_subdomain hostname url :
  (isGoFile hostname url = true
   <-> exists sub, hostname url = Some (sub ++ ".gofile.io")%string)
  /\ (hostname url = Some "gofile.io" -> isGoFile hostname url = false)
  /\ (hostname url = None -> isGoFile hostname url = false).
Proof.
  unfold isGoFile. split; [|split].
  - destruct (hostname url) as [host|].
    + rewrite endsWith_iff. split.
      * intros [p ->]. now exists p.
      * intros [sub [= ->]]. now exists sub.
    + split; [discriminate | intros [sub H]; discriminate].
  - intros ->. reflexivity.
  - intros ->. reflexivity.
Qed.

Lemma isGoFile_iff_subdomain_witness :
  isGoFile https_hostname (videoUrl sample_link) = true
  /\ isGoFile https_hostname "https://gofile.io/d/AbC123" = false.
Proof.
  split.
  - apply (proj1 (isGoFile_iff_subdomain https_hostname (videoUrl sample_link))).
    exists "store1". reflexivity.
  - apply (proj1 (proj2 (isGoFile_iff_subdomain https_hostname
                           "https://gofile.io/d/AbC123"))).
    reflexivity.
Defined.

(* ================================================================== *)
(** ** Link creation, end to end *)

Lemma strip_prefix_app p s : strip_prefix p (p ++ s) = Some s.
Proof.
  induction p as [|a p IH]; simpl; [reflexivity|].
  now rewrite Ascii.eqb_refl.
Qed.

Lemma search_literal_skip (a : ascii) lit cls s t :
  string_forall (fun c => negb (Ascii.eqb c a)) s = true ->
  search (lit_then_run (String a lit) cls) (s ++ t)
  = search (lit_then_run (String a lit) cls) t.
Proof.
  induction s as [|c s IH]; [reflexivity|].
  intros H. cbn [string_forall] in H. apply andb_true_iff in H.
  destruct H as [Hc Hs]. apply negb_true_iff in Hc. rewrite Ascii.eqb_sym in Hc.
  change (String c s ++ t)%string with (String c (s ++ t)).
  cbn [search]. unfold lit_then_run at 1.
  rewrite strip_prefix_cons, Hc. now apply IH.
Qed.

Lemma content_id_found cid :
  cid <> EmptyString -> string_forall is_alnum cid = true ->
  search (lit_then_run "gofile.io/d/" is_alnum) ("https://gofile.io/d/" ++ cid)
  = Some (cid, EmptyString).
Proof.
  intros Hne Hall.
  change ("https://gofile.io/d/" ++ cid)%string
    with ("https://" ++ ("gofile.io/d/" ++ cid))%string.
  rewrite (search_literal_skip "g" "ofile.io/d/" is_alnum "https://")
    by reflexivity.
  destruct cid as [|c cid']; [congruence|].
  change ("gofile.io/d/" ++ String c cid')%string
    with (String "g" ("ofile.io/d/" ++ String c cid')).
  cbn [search]. unfold lit_then_run.
  change (String "g" ("ofile.io/d/" ++ String c cid'))
    with ("gofile.io/d/" ++ String c cid')%string.
  rewrite strip_prefix_app. rewrite span_all by assumption. reflexivity.
Qed.

(** X23: link creation, when everything succeeds.  For a share URL
    [https://gofile.io/d/<id>] with an alphanumeric id, the first call is
    the guest-token request; given a token, the second call asks for the
    contents of that id with [Authorization: Bearer <token>] and the
    website token; given the status [ok] and a listing whose first video is
    [video], the handler stores one link, answers [{embedUrl: BASE_URL/e/
    <identifier>}] and leaves a warm-up pending.  Under the identifier of
    the answer the registry then holds the video's link, the guest token,
    the display name and thumbnail (or their defaults) and 1920x1080, and
    the cache is as it was. *)
Theorem generate_success_round_trip
    BASE_URL env cid acct tok content children video st st1 st2 :
  cid <> EmptyString -> string_forall is_alnum cid = true ->
  api_token (resp_json acct) = Some tok -> tok <> EmptyString ->
  api_status (resp_json content) = Some "ok" ->
  api_children (resp_json content) = Some children ->
  find is_video children = Some video ->
  exists k1 k2 st3 warmup,
    generate BASE_URL env (Some ("https://gofile.io/d/" ++ cid)%string) st
    = (st, Await accounts_config k1)
    /\ k1 (Fulfilled acct) st1 = (st1, Await (contents_config cid tok) k2)
    /\ map_get "Authorization" (cfg_headers (contents_config cid tok))
       = Some ("Bearer " ++ tok)%string
    /\ k2 (Fulfilled content) st2
       = (st3,
          Done (mkHandled
                  (mkHttp 200 []
                     (Json [("embedUrl",
                             BASE_URL ++ "/e/"
                               ++ createShortId (random_bytes env))%string]))
                  (Some warmup)))
    /\ map_get (createShortId (random_bytes env)) (linkStore st3)
       = Some (mkLinkEntry
                 (mkLinkData (child_link video) tok
                    (child_thumbnail video)
                    (or_default (child_name video) "video.mp4")
                    1920 1080)
                 (links_now_set env))
    /\ videoCache st3 = videoCache st2
    /\ warmup
       = snd (prefetch (cache_now_sweep env) (cache_now_set env)
                (child_link video) tok st3).
Proof.
  intros Hne Hall Htok Htokne Hstatus Hchildren Hvideo.
  unfold generate. rewrite (content_id_found Hne Hall).
  eexists. eexists.
  pose proof (generate_store_state BASE_URL env tok video st2) as Hstate.
  pose proof (prefetch_first_segment (cache_now_sweep env) (cache_now_set env)
                (child_link video) tok) as Hfirst.
  assert (Hthumb : or_default (child_thumbnail video) "" = child_thumbnail video).
  { unfold or_default. now destruct (child_thumbnail video). }
  unfold generate_store in *. unfold storeLink in *.
  rewrite Hthumb in *.
  match type of Hstate with
  | context [prefetch ?a ?b ?u ?t ?s] =>
      specialize (Hfirst s);
      destruct (prefetch a b u t s) as [st3 warmup] eqn:Epre
  end.
  cbn [fst snd] in Hstate, Hfirst. subst st3.
  exists (set_linkStore
            (map_set (createShortId (random_bytes env))
               (mkLinkEntry
                  (mkLinkData (child_link video) tok (child_thumbnail video)
                     (or_default (child_name video) "video.mp4") 1920 1080)
                  (links_now_set env))
               (pruneLinks (links_now_sweep env) (linkStore st2)))
            st2), warmup.
  split; [reflexivity|].
  split.
  { rewrite Htok. destruct tok as [|ch tok']; [congruence | reflexivity]. }
  split; [reflexivity|].
  split.
  { rewrite Hstatus, Hchildren, Hvideo. cbn [String.eqb negb].
    change (String.eqb "ok" "ok") with true. cbn [negb].
    unfold generate_store, storeLink. rewrite Hthumb, Epre. reflexivity. }
  split; [cbn [set_linkStore linkStore]; apply map_get_set_same|].
  split; [reflexivity|].
  now rewrite Epre.
Qed.

Lemma generate_success_round_trip_witness :
  exists st3,
    map_get (createShortId (random_bytes sample_env)) (linkStore st3)
    = Some (mkLinkEntry
              (mkLinkData
                 "https://store1.gofile.io/download/web/0a1b2c3d-4e5f/clip.mp4"
                 "guestToken" "" "video.mp4" 1920 1080)
              0)
    /\ videoCache st3 = videoCache empty_state.
Proof.
  destruct (@generate_success_round_trip "http://localhost:3000" sample_env
              "AbC123" sample_accounts "guestToken" sample_contents
              [mkChild "file" (Some "text/plain")
                 "https://store1.gofile.io/download/web/77-aa/notes.txt" ""
                 "notes.txt";
               sample_video]
              sample_video empty_state empty_state empty_state)
    as [k1 [k2 [st3 [warmup [_ [_ [_ [_ [Hget [Hcache _]]]]]]]]]].
  - discriminate.
  - reflexivity.
  - reflexivity.
  - discriminate.
  - reflexivity.
  - reflexivity.
  - reflexivity.
  - exists st3. split; [exact Hget | exact Hcache].
Defined.

Lemma ends_done_inv (A : Type) (a b : A) : ends_with (Done a) b -> a = b.
Proof. intros H. now inversion H. Qed.

Lemma ends_await_inv (A : Type) c
    (k : AxiosResult -> State -> State * task A) a :
  ends_with (Await c k) a -> exists r st, ends_with (snd (k r st)) a.
Proof. intros H. inversion H; subst. eauto. Qed.

(** X24: the answers of link creation.  Whatever the request and the
    answers of the origin, the handler answers either 200 with a warm-up
    left pending, or one of 400, 404, 500 and 502 with a JSON object holding
    one [error] text and no warm-up started. *)
Theorem generate_answers BASE_URL env url st handled :
  ends_with (snd (generate BASE_URL env url st)) handled ->
  (status (response handled) = 200 /\ spawned handled <> None)
  \/ (In (status (response handled)) [400; 404; 500; 502]
      /\ spawned handled = None
      /\ exists message,
           body (response handled) = Json [("error", message)]).
Proof.
  assert (Herr : forall code message,
            In code [400; 404; 500; 502] ->
            json_error code message = handled ->
            In (status (response handled)) [400; 404; 500; 502]
            /\ spawned handled = None
            /\ exists m, body (response handled) = Json [("error", m)]).
  { intros code message Hcode <-. cbn. split; [exact Hcode|].
    split; [reflexivity | eauto]. }
  unfold generate.
  destruct (search _ _) as [[contentId rest]|]; cbn [snd].
  2:{ intros H. apply ends_done_inv in H. right.
      apply (Herr _ _ (or_introl eq_refl) H). }
  intros H. apply ends_await_inv in H. destruct H as [acct [st1 H]].
  destruct acct as [acct | err].
  2:{ cbn [generate_failed snd] in H. apply ends_done_inv in H. right.
      eapply (Herr 500); [cbn; tauto | exact H]. }
  destruct (api_token (resp_json acct)) as [[|ch tok]|]; cbn [snd] in H.
  1,3: apply ends_done_inv in H; right;
       eapply (Herr 502); [cbn; tauto | exact H].
  apply ends_await_inv in H. destruct H as [content [st2 H]].
  destruct content as [content | err].
  2:{ cbn [generate_failed snd] in H. apply ends_done_inv in H. right.
      eapply (Herr 500); [cbn; tauto | exact H]. }
  destruct (negb _); cbn [snd] in H.
  { apply ends_done_inv in H. right.
    eapply (Herr 502); [cbn; tauto | exact H]. }
  destruct (api_children (resp_json content)) as [children|]; cbn [snd] in H.
  2:{ apply ends_done_inv in H. right.
      eapply (Herr 502); [cbn; tauto | exact H]. }
  destruct (find is_video children) as [video|]; cbn [snd] in H.
  2:{ apply ends_done_inv in H. right.
      eapply (Herr 404); [cbn; tauto | exact H]. }
  unfold generate_store in H.
  destruct (storeLink _ _ _ _ _) as [id links].
  destruct (prefetch _ _ _ _ _) as [st3 warmup]. cbn [snd] in H.
  apply ends_done_inv in H. subst handled. left. split; [reflexivity|].
  discriminate.
Qed.

Lemma generate_answers_witness :
  In (status (response
                (json_error 400
                   "Invalid GoFile URL. Expected: https://gofile.io/d/xxxxxx")))
     [400; 404; 500; 502].
Proof.
  destruct (@generate_answers "http://localhost:3000" sample_env
              (Some "https://example.org/video") empty_state
              (json_error 400
                 "Invalid GoFile URL. Expected: https://gofile.io/d/xxxxxx"))
    as [[Hok _] | [Hin _]].
  - apply ends_done.
  - discriminate Hok.
  - exact Hin.
Defined.

(* ================================================================== *)
(** ** The statements above at the example data *)

Lemma generate_effects_witness :
  exists st',
    runs (snd (generate "http://localhost:3000" sample_env
                 (Some "https://gofile.io/d/AbC123") empty_state))
      empty_state st'
    /\ videoCache st' = videoCache empty_state.
Proof.
  eexists. split.
  - exact (runs_resume _ _ (Rejected (mkError "timeout" None None)) empty_state).
  - apply (proj2 (generate_effects "http://localhost:3000" sample_env
                    (Some "https://gofile.io/d/AbC123") empty_state)
             empty_state).
    exact (runs_resume _ _ (Rejected (mkError "timeout" None None)) empty_state).
Defined.

Lemma v_responses_carry_cors_witness :
  cors_present
    (headers (mkHttp 404 (headers cors_response)
                (Text "Link expired or not found."))).
Proof.
  apply (proj2 (v_responses_carry_cors https_hostname
                  (mkRequest (Some "zzzzzz") None) linked_state)).
  apply ends_done.
Defined.

Lemma parse_range_never_negative_witness :
  0 <= fst (parse_range "bytes=+7-+9") /\ 0 <= 9.
Proof.
  destruct (parse_range_never_negative "bytes=+7-+9") as [Hstart Hend].
  split; [exact Hstart|]. apply Hend. reflexivity.
Defined.
